(** * A memcache protocol front end (davidmz/memcache): model and properties

    The development embeds the two Go packages of the repository,

    - [memcache]  (memcache.go): framed connection, request decoder,
      response encoder and connection loop;
    - [simplemmc] (simplemmc/srv.go): the command dispatcher [fullHandler]
      that drives an external store through Get/Set/Del,

    as executable Rocq functions with explicit state passing, and proves
    the protocol properties of the specification about them.

    Modelling conventions:
    - a Go [string] and a Go [[]byte] are both byte sequences: [list ascii];
    - a Go [int] is a [Z] in the 64-bit two's complement range, arithmetic
      on it wraps around ([int_add]);
    - a Go [error] value is [option error] ([None] is [nil]); every sentinel
      variable is a constructor of its own, since the code compares errors
      by identity, never by message;
    - a run-time panic (slice bounds, index, negative [make]) is the
      [Panic] outcome of the [result] monad; [make] panics on a negative
      length only, the allocation limits of the runtime are not modelled;
    - the peer of a connection is a finite byte stream followed by end of
      file; writes to the peer always succeed;
    - the store behind the dispatcher is any implementation of the
      Get/Set/Del interface over a state of its own; the dispatcher's
      calls are recorded beside that state. *)

From Stdlib Require Import ZArith Ascii String List Lia.
From stdpp Require Import base decidable option list strings gmap.

Local Open Scope Z_scope.

(** ** Go values *)

Abbreviation gostring := (list ascii).
Abbreviation bytes := (list ascii).

(** A Go string literal. *)
Definition str (s : string) : gostring := list_ascii_of_string s.

(** The bytes ['\r'] and ['\n']. *)
Definition CR : ascii := ascii_of_nat 13.
Definition LF : ascii := ascii_of_nat 10.

(** [len(s)] as a Go [int]. *)
Definition len {A} (s : list A) : Z := Z.of_nat (length s).

(** Go [int] on a 64-bit platform. *)
Definition intSize : Z := 64.
Definition MaxInt : Z := 2 ^ (intSize - 1) - 1.
Definition MinInt : Z := - 2 ^ (intSize - 1).

Definition int_wrap (z : Z) : Z :=
  (z + 2 ^ (intSize - 1)) mod 2 ^ intSize - 2 ^ (intSize - 1).
Definition int_add (a b : Z) : Z := int_wrap (a + b).
Definition int_sub (a b : Z) : Z := int_wrap (a - b).

(** Run-time panics of the Go runtime that the code can raise. *)
Inductive panic : Type :=
| slice_bounds_out_of_range
| index_out_of_range
| makeslice_len_out_of_range
| nil_pointer_dereference.

Inductive result (A : Type) : Type :=
| Ok (a : A)
| Panic (p : panic).
Arguments Ok {A} a.
Arguments Panic {A} p.

#[global] Instance result_ret : MRet result := λ A a, Ok a.
#[global] Instance result_bind : MBind result := λ A B f m,
  match m with
  | Ok a => f a
  | Panic p => Panic p
  end.

(** [s[lo:]], [s[:hi]], [s[i]] and [make([]byte, n)]. *)
Definition slice_from {A} (s : list A) (lo : Z) : result (list A) :=
  if decide (0 ≤ lo ≤ len s) then Ok (drop (Z.to_nat lo) s)
  else Panic slice_bounds_out_of_range.

Definition slice_to {A} (s : list A) (hi : Z) : result (list A) :=
  if decide (0 ≤ hi ≤ len s) then Ok (take (Z.to_nat hi) s)
  else Panic slice_bounds_out_of_range.

Definition index {A} (s : list A) (i : Z) : result A :=
  if decide (0 ≤ i) then
    match s !! Z.to_nat i with
    | Some x => Ok x
    | None => Panic index_out_of_range
    end
  else Panic index_out_of_range.

(** [make([]byte, n)] panics on a negative length.  The runtime also
    refuses a length above its allocation limit, and the process dies when
    the memory cannot be had: these limits depend on the platform and the
    machine and are left out, so here an allocation of a non-negative
    length succeeds.  What is stated below of a read that returns a
    result is therefore stated for bytes that are in the input, or under
    the hypothesis that the read returns. *)
Definition make (n : Z) : result bytes :=
  if decide (0 ≤ n) then Ok (replicate (Z.to_nat n) zero)
  else Panic makeslice_len_out_of_range.

(** ** Errors

    The error values whose message the two packages can print.
    [errors_New] stands for any other error value (an opaque store
    failure) with the text it prints: it is never identical to a
    sentinel, whatever its text. *)
Inductive error : Type :=
| ErrCloseConnection
| errInvalidEOL
| io_EOF
| io_ErrUnexpectedEOF
| ErrNotFound
| ErrNotStored
| ErrExists
| errors_New (text : gostring).

#[global] Instance error_eq_dec : EqDecision error.
Proof. solve_decision. Defined.

Definition backslash : ascii := ascii_of_nat 92.

(** [err.Error()]. *)
Definition Error (e : error) : gostring :=
  match e with
  | ErrCloseConnection => str "Close"
  | errInvalidEOL =>
      str "invalid EOL (must be '" ++ [backslash; "r"%char; backslash; "n"%char]
        ++ str "'"
  | io_EOF => str "EOF"
  | io_ErrUnexpectedEOF => str "unexpected EOF"
  | ErrNotFound => str "NOT_FOUND"
  | ErrNotStored => str "NOT_STORED"
  | ErrExists => str "EXISTS"
  | errors_New text => text
  end.

(** ** Package strconv and fmt (Go standard library)

    [Atoi] follows strconv.Atoi, that is ParseInt(s, 10, 0): an optional
    sign, then at least one decimal digit, the digits accumulated left to
    right with the library's overflow cut-offs; the value must fit [int]. *)
Definition is_digit (ch : ascii) : bool :=
  (48 <=? Z.of_nat (nat_of_ascii ch)) && (Z.of_nat (nat_of_ascii ch) <=? 57).

Definition digit_val (ch : ascii) : Z := Z.of_nat (nat_of_ascii ch) - 48.

Definition maxUint64 : Z := 2 ^ 64 - 1.

Inductive num_err : Type := ErrSyntax | ErrRange.

#[global] Instance num_err_eq_dec : EqDecision num_err.
Proof. solve_decision. Defined.

(** A [*strconv.NumError]: the function that failed, its input and the
    reason.  The dispatcher only compares this error with nil; its
    message is never printed and is not modelled. *)
Record NumError : Type := mkNumError {
  Func : gostring;
  Num : gostring;
  Err : num_err
}.

#[global] Instance NumError_eq_dec : EqDecision NumError.
Proof. solve_decision. Defined.

(** The digit loop of strconv.ParseUint for base 10 and 64 bits. *)
Fixpoint parse_uint_loop (n : Z) (s : gostring) : Z * option num_err :=
  match s with
  | [] => (n, None)
  | ch :: s' =>
      if negb (is_digit ch) then (0, Some ErrSyntax)
      else if maxUint64 / 10 + 1 <=? n then (maxUint64, Some ErrRange)
      else
        let n1 := n * 10 + digit_val ch in
        if maxUint64 <? n1 then (maxUint64, Some ErrRange)
        else parse_uint_loop n1 s'
  end.

Definition ParseUint (s : gostring) : Z * option num_err :=
  match s with
  | [] => (0, Some ErrSyntax)
  | _ => parse_uint_loop 0 s
  end.

Definition ParseInt (s : gostring) : Z * option num_err :=
  match s with
  | [] => (0, Some ErrSyntax)
  | ch :: s' =>
      let neg := bool_decide (ch = "-"%char) in
      let s1 := if bool_decide (ch = "+"%char) || neg then s' else s in
      match ParseUint s1 with
      | (_, Some ErrSyntax) => (0, Some ErrSyntax)
      | (un, _) =>
          let cutoff := 2 ^ (intSize - 1) in
          if negb neg && (cutoff <=? un) then (cutoff - 1, Some ErrRange)
          else if neg && (cutoff <? un) then (- cutoff, Some ErrRange)
          else (if neg then - un else un, None)
      end
  end.

Definition Atoi (s : gostring) : Z * option NumError :=
  match ParseInt s with
  | (n, None) => (n, None)
  | (n, Some e) => (n, Some {| Func := str "Atoi"; Num := s; Err := e |})
  end.

Definition digit_char (d : Z) : ascii := ascii_of_nat (Z.to_nat (48 + d)).

(** The digit loop of fmt's integer formatting: least significant digit
    first, written from the end of a buffer that holds any 64-bit value. *)
Fixpoint fmt_digits (fuel : nat) (u : Z) (acc : gostring) : gostring :=
  match fuel with
  | O => acc
  | S fuel' =>
      if u <? 10 then digit_char u :: acc
      else fmt_digits fuel' (u / 10) (digit_char (u mod 10) :: acc)
  end.

(** The verb [%d] applied to an integer. *)
Definition fmt_d (n : Z) : gostring :=
  if n <? 0 then "-"%char :: fmt_digits 20 (- n) []
  else fmt_digits 20 n [].

(** ** Package memcache (memcache.go) *)
Module memcache.

Definition eol : gostring := [CR; LF].

(** The connection: a buffered reader and a buffered writer over one
    stream.  [rd] is the input not yet consumed, [wbuf] the bytes written
    but not flushed, [wire] the bytes the peer has received. *)
Record connection : Type := Connection {
  rd : bytes;
  wbuf : bytes;
  wire : bytes;
  closed : bool
}.

Definition set_rd (c : connection) (r : bytes) : connection :=
  {| rd := r; wbuf := wbuf c; wire := wire c; closed := closed c |}.

(** newConn: nothing buffered, nothing sent. *)
Definition newConn (input : bytes) : connection :=
  {| rd := input; wbuf := []; wire := []; closed := false |}.

Definition Close (c : connection) : connection :=
  {| rd := rd c; wbuf := wbuf c; wire := wire c; closed := true |}.

(** bufio.Reader.ReadString: up to and including the first [delim]; when
    the stream ends first, what was read and io.EOF. *)
Fixpoint read_until (delim : ascii) (s : bytes) : option (bytes * bytes) :=
  match s with
  | [] => None
  | b :: s' =>
      if decide (b = delim) then Some ([b], s')
      else match read_until delim s' with
           | Some (line, rest) => Some (b :: line, rest)
           | None => None
           end
  end.

Definition ReadString (c : connection) (delim : ascii)
  : gostring * option error * connection :=
  match read_until delim (rd c) with
  | Some (line, rest) => (line, None, set_rd c rest)
  | None => (rd c, Some io_EOF, set_rd c [])
  end.

(** io.ReadFull(c, buf): fills [buf] entirely, or fails with io.EOF when
    nothing could be read and io.ErrUnexpectedEOF after a partial read. *)
Definition ReadFull (c : connection) (buf : bytes)
  : Z * option error * bytes * connection :=
  let n := length buf in
  if decide (n ≤ length (rd c))%nat then
    (len buf, None, take n (rd c), set_rd c (drop n (rd c)))
  else
    (len (rd c),
     Some (if decide (rd c = []) then io_EOF else io_ErrUnexpectedEOF),
     rd c ++ drop (length (rd c)) buf,
     set_rd c []).

(** bufio.Writer.WriteString / Write / Flush. *)
Definition WriteString (c : connection) (s : gostring) : connection :=
  {| rd := rd c; wbuf := wbuf c ++ s; wire := wire c; closed := closed c |}.

Definition Write (c : connection) (p : bytes) : connection :=
  WriteString c p.

Definition Flush (c : connection) : option error * connection :=
  (None, {| rd := rd c; wbuf := []; wire := wire c ++ wbuf c;
            closed := closed c |}).

Record Request : Type := mkRequest {
  Command : gostring;
  Args : list gostring
}.

(** *** Response encoder *)

Definition Status (c : connection) (status : gostring)
  : option error * connection :=
  let c := WriteString c (status ++ eol) in
  Flush c.

Definition UnknownCommandError (c : connection) := Status c (str "ERROR").

Definition ClientError (c : connection) (msg : gostring) :=
  Status c (str "CLIENT_ERROR " ++ msg).

Definition ServerError (c : connection) (msg : gostring) :=
  Status c (str "SERVER_ERROR " ++ msg).

Definition NotFound (c : connection) := Status c (str "NOT_FOUND").

Definition ValueFull (c : connection) (key : gostring) (body : bytes)
    (flags cas : Z) : option error * connection :=
  let c := Write c (str "VALUE " ++ key ++ str " " ++ fmt_d flags ++ str " "
                      ++ fmt_d (len body) ++ str " " ++ fmt_d cas) in
  let c := WriteString c eol in
  let c := Write c body in
  let c := WriteString c eol in
  Flush c.

Definition Value (c : connection) (key : gostring) (body : bytes) :=
  ValueFull c key body 0 0.

(** *** Request decoder *)

(** strings.Split(s, sep) for a one-byte separator. *)
Fixpoint Split (s : gostring) (sep : ascii) : list gostring :=
  match s with
  | [] => [[]]
  | ch :: s' =>
      if decide (ch = sep) then [] :: Split s' sep
      else match Split s' sep with
           | [] => [[ch]]
           | part :: parts => (ch :: part) :: parts
           end
  end.

Definition readRequestLine (c : connection)
  : result (option Request * option error * connection) :=
  let '(line, err, c) := ReadString c LF in
  match err with
  | Some e => Ok (None, Some e, c)
  | None =>
      tail ← slice_from line (int_sub (len line) (len eol));
      if decide (tail ≠ eol) then Ok (None, Some errInvalidEOL, c)
      else
        head ← slice_to line (int_sub (len line) (len eol));
        let parts := Split head " "%char in
        let parts := if decide (len parts = 0) then parts ++ [[]] else parts in
        command ← index parts 0;
        args ← slice_from parts 1;
        Ok (Some {| Command := command; Args := args |}, None, c)
  end.

Definition readRequestBody (c : connection) (length : Z)
  : result (bytes * option error * connection) :=
  body ← make (int_add length (len eol));
  let '(_, err, body, c) := ReadFull c body in
  match err with
  | Some e => Ok ([], Some e, c)
  | None =>
      tail ← slice_from body length;
      if decide (tail ≠ eol) then Ok ([], Some errInvalidEOL, c)
      else
        b ← slice_to body length;
        Ok (b, None, c)
  end.

(** Request.ReadBody *)
Definition ReadBody (c : connection) (length : Z) := readRequestBody c length.

(** *** Handlers and the connection loop

    A handler works on the connection (through its Request and Response)
    and on an environment [W] of its own. *)
Section Loop.
Context {W : Type}.

Definition HandlerFunc : Type :=
  Request → connection → W → result (option error * connection * W).

Class Handler (H : Type) : Type :=
  ServeMemcache : H → Request → connection → W
                  → result (option error * connection * W).

#[global] Instance HandlerFunc_Handler : Handler HandlerFunc := λ h, h.

(** connection.run: one unit of [fuel] per iteration of the loop;
    [None] when the fuel is used up.  The deferred Close runs on every
    exit. *)
Fixpoint run {H} `{!Handler H} (fuel : nat) (handler : H)
    (c : connection) (w : W) : option (result (connection * W)) :=
  match fuel with
  | O => None
  | S fuel' =>
      match readRequestLine c with
      | Panic p => Some (Panic p)
      | Ok (_, Some _, c) => Some (Ok (Close c, w))
      | Ok (None, None, c) => Some (Panic nil_pointer_dereference)
      | Ok (Some req, None, c) =>
          if decide (Command req = []) then run fuel' handler c w
          else
            match ServeMemcache handler req c w with
            | Panic p => Some (Panic p)
            | Ok (Some _, c, w) => Some (Ok (Close c, w))
            | Ok (None, c, w) => run fuel' handler c w
            end
      end
  end.

(** HandleConnection *)
Definition HandleConnection {H} `{!Handler H} (fuel : nat) (input : bytes)
    (h : H) (w : W) : option (result (connection * W)) :=
  run fuel h (newConn input) w.
End Loop.
Arguments HandlerFunc : clear implicits.
Arguments Handler : clear implicits.

End memcache.

(** ** Package simplemmc (simplemmc/srv.go) *)
Module simplemmc.
Import memcache.

(** [Set] is a reserved word: the mode is spelled [Set_]. *)
Inductive SetMode : Type := Set_ | Add | Replace.

#[global] Instance SetMode_eq_dec : EqDecision SetMode.
Proof. solve_decision. Defined.

(** The store interface.  A store has a state [S]; each method returns
    its Go results and the next state. *)
Class Handler (S : Type) : Type := {
  Handler_Get : gostring → S → bytes * option error * S;
  Handler_Set : gostring → bytes → SetMode → S → option error * S;
  Handler_Del : gostring → S → option error * S
}.

(** The calls the dispatcher makes on its collaborators, in order: a
    record kept beside the store state to state what was and was not
    called. *)
Inductive call : Type :=
| CallGet (key : gostring)
| CallSet (key : gostring) (value : bytes) (mode : SetMode)
| CallDel (key : gostring)
| CallReadBody (length : Z).

Record env (S : Type) : Type := Env {
  store : S;
  calls : list call
}.
Arguments Env {S} store calls.
Arguments store {S} e.
Arguments calls {S} e.

Section Dispatcher.
Context {S : Type} `{!Handler S}.

(** The version constant is declared outside the two source files. *)
Variable MemcacheVersion : gostring.

Definition h_Get (key : gostring) (w : env S) : bytes * option error * env S :=
  let '(data, err, s) := Handler_Get key (store w) in
  (data, err, Env s (calls w ++ [CallGet key])).

Definition h_Set (key : gostring) (value : bytes) (mode : SetMode) (w : env S)
  : option error * env S :=
  let '(err, s) := Handler_Set key value mode (store w) in
  (err, Env s (calls w ++ [CallSet key value mode])).

Definition h_Del (key : gostring) (w : env S) : option error * env S :=
  let '(err, s) := Handler_Del key (store w) in
  (err, Env s (calls w ++ [CallDel key])).

Definition req_ReadBody (c : connection) (length : Z) (w : env S)
  : result (bytes * option error * connection * env S) :=
  '(body, err, c) ← ReadBody c length;
  Ok (body, err, c, Env (store w) (calls w ++ [CallReadBody length])).

(** The [for _, key := range req.Args] loop of the get/gets case.  The
    flag is [false] when the loop left the handler by [return]. *)
Fixpoint get_loop (keys : list gostring) (c : connection) (w : env S)
  : bool * connection * env S :=
  match keys with
  | [] => (true, c, w)
  | key :: keys' =>
      let '(data, err, w) := h_Get key w in
      if decide (err = Some ErrNotFound) then get_loop keys' c w
      else
        match err with
        | Some e =>
            let '(_, c) := ServerError c (Error e) in
            (false, c, w)
        | None =>
            let '(_, c) := Value c key data in
            get_loop keys' c w
        end
  end.

Definition serve_get (req : Request) (c : connection) (w : env S)
  : result (option error * connection * env S) :=
  if decide (len (Args req) = 0) then
    let '(_, c) := ClientError c (str "key required") in
    Ok (None, c, w)
  else
    args ← (if decide (Command req = str "get") then slice_to (Args req) 1
            else Ok (Args req));
    let '(completed, c, w) := get_loop args c w in
    if completed then
      let '(_, c) := Status c (str "END") in
      Ok (None, c, w)
    else Ok (None, c, w).

Definition serve_set (req : Request) (c : connection) (w : env S)
  : result (option error * connection * env S) :=
  if decide (len (Args req) < 4) then
    let '(_, c) := ClientError c (str "invalid command format") in
    Ok (None, c, w)
  else
    noreply ← (if decide (len (Args req) = 5) then
                 a ← index (Args req) 4;
                 Ok (bool_decide (a = str "noreply"))
               else Ok false);
    a3 ← index (Args req) 3;
    let '(bodyLen, err) := Atoi a3 in
    if decide (err ≠ None ∨ bodyLen < 0) then
      if negb noreply then
        let '(_, c) := ClientError c (str "invalid data length") in
        Ok (None, c, w)
      else Ok (None, c, w)
    else
      '(body, err, c, w) ← req_ReadBody c bodyLen w;
      match err with
      | Some e =>
          if negb noreply then
            let '(_, c) := ServerError c (Error e) in
            Ok (None, c, w)
          else Ok (None, c, w)
      | None =>
          let mode :=
            if decide (Command req = str "set") then Set_
            else if decide (Command req = str "add") then Add
            else if decide (Command req = str "replace") then Replace
            else Set_ in
          key ← index (Args req) 0;
          let '(err, w) := h_Set key body mode w in
          if negb noreply then
            match err with
            | Some e =>
                if decide (e = ErrNotStored ∨ e = ErrNotFound ∨ e = ErrExists)
                then
                  let '(_, c) := Status c (Error e) in
                  Ok (None, c, w)
                else
                  let '(_, c) := ServerError c (Error e) in
                  Ok (None, c, w)
            | None =>
                let '(_, c) := Status c (str "STORED") in
                Ok (None, c, w)
            end
          else Ok (None, c, w)
      end.

Definition serve_del (req : Request) (c : connection) (w : env S)
  : result (option error * connection * env S) :=
  if decide (len (Args req) < 1) then
    let '(_, c) := ClientError c (str "invalid command format") in
    Ok (None, c, w)
  else
    noreply ← (if decide (len (Args req) = 2) then
                 a ← index (Args req) 1;
                 Ok (bool_decide (a = str "noreply"))
               else Ok false);
    key ← index (Args req) 0;
    let '(err, w) := h_Del key w in
    if negb noreply then
      match err with
      | Some e =>
          if decide (e = ErrNotFound) then
            let '(_, c) := Status c (Error e) in
            Ok (None, c, w)
          else
            let '(_, c) := ServerError c (Error e) in
            Ok (None, c, w)
      | None =>
          let '(_, c) := Status c (str "DELETED") in
          Ok (None, c, w)
      end
    else Ok (None, c, w).

(** fullHandler: the [switch req.Command].  The closure's bare [return]
    statements and its fall-through end give the nil error; only
    [quit] returns an error. *)
Definition fullHandler : HandlerFunc (env S) := λ req c w,
  let cmd := Command req in
  if decide (cmd = str "get" ∨ cmd = str "gets") then serve_get req c w
  else if decide (cmd = str "set" ∨ cmd = str "add" ∨ cmd = str "replace")
  then serve_set req c w
  else if decide (cmd = str "del") then serve_del req c w
  else if decide (cmd = str "version") then
    let '(_, c) := Status c (str "VERSION " ++ MemcacheVersion) in
    Ok (None, c, w)
  else if decide (cmd = str "quit") then Ok (Some ErrCloseConnection, c, w)
  else
    let '(_, c) := UnknownCommandError c in
    Ok (None, c, w).
End Dispatcher.

End simplemmc.

(** ** A sample store

    An in-memory map with the usual meaning of the three modes, used to
    run the dispatcher on concrete requests. *)
#[global] Instance MapStore : simplemmc.Handler (gmap gostring bytes) := {|
  simplemmc.Handler_Get key m :=
    match m !! key with
    | Some v => (v, None, m)
    | None => ([], Some ErrNotFound, m)
    end;
  simplemmc.Handler_Set key value mode m :=
    match mode, m !! key with
    | simplemmc.Set_, _ => (None, <[key:=value]> m)
    | simplemmc.Add, None => (None, <[key:=value]> m)
    | simplemmc.Add, Some _ => (Some ErrNotStored, m)
    | simplemmc.Replace, Some _ => (None, <[key:=value]> m)
    | simplemmc.Replace, None => (Some ErrNotStored, m)
    end;
  simplemmc.Handler_Del key m :=
    match m !! key with
    | Some _ => (None, delete key m)
    | None => (Some ErrNotFound, m)
    end
|}.

(** A store whose answers to Get are scripted by a function of the key;
    Set and Del succeed and change nothing. *)
#[global] Instance ScriptedStore
  : simplemmc.Handler (gostring → bytes * option error) := {|
  simplemmc.Handler_Get key answers := (answers key, answers);
  simplemmc.Handler_Set key value mode answers := (None, answers);
  simplemmc.Handler_Del key answers := (None, answers)
|}.

(** The map that holds "abc" under the key "k". *)
Definition sample_map : gmap gostring bytes := {[ str "k" := str "abc" ]}.

(** The script that finds "abc" under "k", fails on "bad" and finds
    nothing else. *)
Definition sample_script (key : gostring) : bytes * option error :=
  if decide (key = str "k") then (str "abc", None)
  else if decide (key = str "bad") then ([], Some (errors_New (str "boom")))
  else ([], Some ErrNotFound).

Import memcache simplemmc.

(** What the peer has received when a connection with the given input,
    served by the dispatcher over the empty map, is over. *)
Definition session (input : bytes) : option (result bytes) :=
  match HandleConnection (S (length input)) input (fullHandler (str "1.0"))
          (Env (∅ : gmap gostring bytes) []) with
  | Some (Ok (c, _)) => Some (Ok (wire c))
  | Some (Panic p) => Some (Panic p)
  | None => None
  end.

(** A handler that behaves as [h] but panics on an empty command. *)
Definition strict_on_empty {W} (h : HandlerFunc W) : HandlerFunc W :=
  λ req c w,
    if decide (Command req = []) then Panic nil_pointer_dereference
    else h req c w.

(** ** Vocabulary of the statements *)

(** The connection after [msg] was written and flushed: the peer has
    received what was still buffered and then [msg]; nothing was read. *)
Definition emit (c : connection) (msg : bytes) : connection :=
  {| rd := rd c; wbuf := []; wire := wire c ++ wbuf c ++ msg;
     closed := closed c |}.

(** The wire form of one value block with flags and cas 0. *)
Definition value_block (key : gostring) (body : bytes) : bytes :=
  str "VALUE " ++ key ++ str " 0 " ++ fmt_d (len body) ++ str " 0" ++ eol
    ++ body ++ eol.

(** Every Go string and slice has a length that fits [int]. *)
Definition go_len_ok {A} (s : list A) : Prop := len s ≤ MaxInt.

(** The three storage commands and their modes. *)
Definition storage_commands : list (gostring * SetMode) :=
  [(str "set", Set_); (str "add", Add); (str "replace", Replace)].

(** noreply is in effect: exactly five arguments, the fifth is the word. *)
Definition noreply_in_effect (args : list gostring) : bool :=
  bool_decide (len args = 5 ∧ args !! 4%nat = Some (str "noreply")).

(** The status line (without its terminator) that answers the result of
    Store.Set. *)
Definition store_reply (err : option error) : gostring :=
  match err with
  | None => str "STORED"
  | Some ErrNotStored => str "NOT_STORED"
  | Some ErrNotFound => str "NOT_FOUND"
  | Some ErrExists => str "EXISTS"
  | Some e => str "SERVER_ERROR " ++ Error e
  end.

(** The results of Store.Get on [keys], asked in order from the store
    state [s], and the state the store is left in. *)
Fixpoint fetch {St} `{!simplemmc.Handler St} (keys : list gostring) (s : St)
  : list (gostring * bytes * option error) * St :=
  match keys with
  | [] => ([], s)
  | key :: keys' =>
      let '(data, err, s1) := Handler_Get key s in
      let '(rs, s') := fetch keys' s1 in
      ((key, data, err) :: rs, s')
  end.

(** A result that does not abort a retrieval: found, or the NotFound
    sentinel. *)
Definition soft (r : gostring * bytes * option error) : Prop :=
  r.2 = None ∨ r.2 = Some ErrNotFound.

(** What a retrieval writes for one result: a value block when found. *)
Definition found_block (r : gostring * bytes * option error) : bytes :=
  match r with
  | (key, data, None) => value_block key data
  | _ => []
  end.

(** The two requests of the round trip as the client sends them: the
    [set] line with flags 0, exptime 0 and the decimal length, the body,
    and the [get] line. *)
Definition set_request (key : gostring) (body : bytes) : bytes :=
  (str "set " ++ key ++ str " 0 0 " ++ fmt_d (len body)) ++ eol ++ body ++ eol.

Definition get_request (key : gostring) : bytes := (str "get " ++ key) ++ eol.

(** The round trip over the wire for one key and body: on a connection
    that carries the two requests, with a store that accepts the Set and
    then returns the body, the peer receives STORED and the value block
    followed by END. *)
Definition wire_roundtrip {St} `{!simplemmc.Handler St}
    (key : gostring) (body : bytes) : Prop :=
  ∀ (V : gostring) (s0 s1 s2 : St),
    Handler_Set key body Set_ s0 = (None, s1) →
    Handler_Get key s1 = (body, None, s2) →
    let input := set_request key body ++ get_request key in
    ∃ c w,
      HandleConnection (S (length input)) input (fullHandler V) (Env s0 [])
        = Some (Ok (c, w)) ∧
      wire c = (str "STORED" ++ eol) ++
               (str "VALUE " ++ key ++ str " 0 " ++ fmt_d (len body) ++ str " 0"
                  ++ eol ++ body ++ eol ++ str "END" ++ eol).

(** The request line a client writes for a list of tokens: the tokens
    separated by single [sep] bytes (the inverse of [Split]). *)
Fixpoint Join (toks : list gostring) (sep : ascii) : gostring :=
  match toks with
  | [] => []
  | tok :: toks' =>
      match toks' with
      | [] => tok
      | _ => tok ++ sep :: Join toks' sep
      end
  end.

(** A token of a request line: no space and no line feed in it. *)
Definition plain (tok : gostring) : Prop :=
  (" "%char ∉ tok) ∧ (LF ∉ tok).

(** [c'] is [c] after some responses were written and flushed: nothing
    is buffered, the bytes already sent are a prefix of the bytes sent,
    and the connection was not closed in between. *)
Definition extends (c c' : connection) : Prop :=
  wbuf c' = [] ∧ (wire c `prefix_of` wire c') ∧ closed c' = closed c.

(** The commands the dispatcher knows. *)
Definition known_commands : list gostring :=
  [str "get"; str "gets"; str "set"; str "add"; str "replace"; str "del";
   str "version"; str "quit"].

(** The status line (without its terminator) that answers the result of
    Store.Del. *)
Definition del_reply (err : option error) : gostring :=
  match err with
  | None => str "DELETED"
  | Some ErrNotFound => str "NOT_FOUND"
  | Some e => str "SERVER_ERROR " ++ Error e
  end.

(** noreply is in effect for [del]: exactly two arguments, the second is
    the word. *)
Definition del_noreply (args : list gostring) : bool :=
  bool_decide (len args = 2 ∧ args !! 1%nat = Some (str "noreply")).

(** ** The response encoder *)

Lemma emit_emit c a b : emit (emit c a) b = emit c (a ++ b).
Proof.
  unfold emit; simpl. f_equal. by rewrite <- !app_assoc.
Qed.

Lemma emit_nil_ready c : wbuf c = [] → emit c [] = c.
Proof.
  destruct c as [r wb wi cl]; simpl; intros ->.
  unfold emit; simpl. by rewrite !app_nil_r.
Qed.

Lemma Status_emit c s : Status c s = (None, emit c (s ++ eol)).
Proof. reflexivity. Qed.

Lemma ClientError_emit c msg :
  ClientError c msg = (None, emit c (str "CLIENT_ERROR " ++ msg ++ eol)).
Proof. unfold ClientError. rewrite Status_emit. by rewrite <- app_assoc. Qed.

Lemma ServerError_emit c msg :
  ServerError c msg = (None, emit c (str "SERVER_ERROR " ++ msg ++ eol)).
Proof. unfold ServerError. rewrite Status_emit. by rewrite <- app_assoc. Qed.

Lemma Value_emit c key body : Value c key body = (None, emit c (value_block key body)).
Proof.
  unfold Value, ValueFull, Write, WriteString, Flush, emit, value_block.
  cbn [rd wbuf wire closed]. do 2 f_equal.
  change (fmt_d 0) with (str "0"). rewrite <- !app_assoc. reflexivity.
Qed.

(** ** Lines and tokens *)

Lemma read_until_app delim line rest :
  delim ∉ line →
  read_until delim (line ++ delim :: rest) = Some (line ++ [delim], rest).
Proof.
  induction line as [|b line IH]; simpl; intros Hn.
  - by rewrite decide_True.
  - apply not_elem_of_cons in Hn as [Hb Hl].
    rewrite decide_False by congruence. by rewrite IH.
Qed.

Lemma read_until_none delim s : delim ∉ s → read_until delim s = None.
Proof.
  induction s as [|b s IH]; [done|]. rewrite not_elem_of_cons. intros [Hb Hs].
  cbn [read_until]. rewrite decide_False by congruence. by rewrite IH.
Qed.

Lemma read_until_length delim s line rest :
  read_until delim s = Some (line, rest) →
  (length s = length line + length rest)%nat ∧ (0 < length line)%nat.
Proof.
  revert line rest. induction s as [|b s IH]; simpl; intros line rest; [done|].
  destruct (decide (b = delim)).
  - intros [= <- <-]. simpl. lia.
  - destruct (read_until delim s) as [[l r]|] eqn:E; [|done].
    intros [= <- <-]. destruct (IH _ _ eq_refl). simpl. lia.
Qed.

Lemma Split_not_nil s sep : Split s sep ≠ [].
Proof.
  induction s as [|ch s IH]; simpl; [done|].
  destruct (decide (ch = sep)); [done|]. by destruct (Split s sep).
Qed.

Lemma Split_no_sep s sep : sep ∉ s → Split s sep = [s].
Proof.
  induction s as [|ch s IH]; simpl; intros Hn; [done|].
  apply not_elem_of_cons in Hn as [Hb Hl].
  rewrite decide_False by congruence. by rewrite IH.
Qed.

Lemma Split_app tok s sep :
  sep ∉ tok → Split (tok ++ sep :: s) sep = tok :: Split s sep.
Proof.
  induction tok as [|ch tok IH]; simpl; intros Hn.
  - by rewrite decide_True.
  - apply not_elem_of_cons in Hn as [Hb Hl].
    rewrite decide_False by congruence. by rewrite IH.
Qed.

(** ** Go integers and slices *)

Lemma int_wrap_id z : MinInt ≤ z ≤ MaxInt → int_wrap z = z.
Proof.
  unfold MinInt, MaxInt, int_wrap, intSize. intros Hz.
  rewrite Z.mod_small; lia.
Qed.

Lemma len_app {A} (a b : list A) : len (a ++ b) = len a + len b.
Proof. unfold len. rewrite length_app. lia. Qed.

Lemma len_nonneg {A} (a : list A) : 0 ≤ len a.
Proof. unfold len. lia. Qed.

Lemma slice_from_app {A} (a b : list A) : slice_from (a ++ b) (len a) = Ok b.
Proof.
  unfold slice_from. rewrite decide_True.
  - unfold len. by rewrite Nat2Z.id, drop_app_length.
  - rewrite len_app. pose proof (len_nonneg a). pose proof (len_nonneg b). lia.
Qed.

Lemma slice_to_app {A} (a b : list A) : slice_to (a ++ b) (len a) = Ok a.
Proof.
  unfold slice_to. rewrite decide_True.
  - unfold len. by rewrite Nat2Z.id, take_app_length.
  - rewrite len_app. pose proof (len_nonneg a). pose proof (len_nonneg b). lia.
Qed.

(** ** The request decoder *)

(** A well-terminated line decodes to its tokens and consumes exactly the
    line. *)
Lemma readRequestLine_ok c line rest :
  LF ∉ line → go_len_ok (line ++ eol) →
  rd c = line ++ eol ++ rest →
  readRequestLine c =
    Ok (Some {| Command := hd [] (Split line " "%char); Args := tl (Split line " "%char) |},
        None, set_rd c rest).
Proof.
  intros Hlf Hlen Hrd. unfold readRequestLine, ReadString.
  replace (rd c) with ((line ++ [CR]) ++ LF :: rest)
    by (rewrite Hrd, <- app_assoc; reflexivity).
  rewrite read_until_app.
  2:{ rewrite elem_of_app, list_elem_of_singleton. intros [?|?]; [done|discriminate]. }
  replace ((line ++ [CR]) ++ [LF]) with (line ++ eol)
    by (rewrite <- app_assoc; reflexivity).
  assert (Hsub : int_sub (len (line ++ eol)) (len eol) = len line).
  { unfold int_sub. rewrite len_app. rewrite int_wrap_id.
    - lia.
    - unfold go_len_ok in Hlen. rewrite len_app in Hlen.
      pose proof (len_nonneg line). change (len eol) with 2 in *.
      unfold MinInt, MaxInt, intSize in *. lia. }
  rewrite Hsub, slice_from_app, slice_to_app. cbn [mbind result_bind].
  rewrite decide_False by (intros H; by apply H).
  pose proof (Split_not_nil line " "%char) as Hne.
  destruct (Split line " "%char) as [|command args]; [done|].
  rewrite decide_False by (unfold len; cbn [length]; lia).
  unfold index, slice_from. cbn [Z.to_nat lookup list_lookup mbind result_bind].
  rewrite !decide_True by (unfold len; cbn [length]; lia).
  reflexivity.
Qed.

(** A line of at least two bytes that does not end in CR LF is refused
    with the framing error; nothing but the line is consumed. *)
Lemma readRequestLine_bad_eol c line rest :
  read_until LF (rd c) = Some (line, rest) →
  2 ≤ len line → go_len_ok line →
  drop (length line - 2) line ≠ eol →
  readRequestLine c = Ok (None, Some errInvalidEOL, set_rd c rest).
Proof.
  intros Hread Hlo Hhi Htail. unfold readRequestLine, ReadString.
  rewrite Hread.
  assert (Hsub : int_sub (len line) (len eol) = len line - 2).
  { unfold int_sub. change (len eol) with 2. apply int_wrap_id.
    unfold go_len_ok, MinInt, MaxInt, intSize in *. lia. }
  rewrite Hsub. unfold slice_from. rewrite decide_True by lia.
  cbn [mbind result_bind].
  replace (Z.to_nat (len line - 2)) with (length line - 2)%nat
    by (unfold len in *; lia).
  by rewrite decide_True.
Qed.

(** A line that is the single byte LF makes the slice expression
    [line[len(line)-len(eol):]] panic. *)
Lemma readRequestLine_short_line c rest :
  rd c = LF :: rest →
  readRequestLine c = Panic slice_bounds_out_of_range.
Proof.
  intros Hrd. unfold readRequestLine, ReadString. rewrite Hrd. reflexivity.
Qed.

(** A body of the declared length followed by CR LF is read whole. *)
Lemma readRequestBody_ok c body rest :
  go_len_ok (body ++ eol) →
  rd c = body ++ eol ++ rest →
  readRequestBody c (len body) = Ok (body, None, set_rd c rest).
Proof.
  intros Hlen Hrd. unfold readRequestBody.
  unfold go_len_ok in Hlen. rewrite len_app in Hlen.
  pose proof (len_nonneg body) as Hnn. change (len eol) with 2 in *.
  unfold int_add. rewrite int_wrap_id by (unfold MinInt, MaxInt, intSize in *; lia).
  unfold make. rewrite decide_True by lia. cbn [mbind result_bind].
  unfold ReadFull. rewrite length_replicate.
  assert (Hn : Z.to_nat (len body + 2) = length (body ++ eol)).
  { rewrite length_app. unfold len. simpl. lia. }
  rewrite Hn, Hrd, app_assoc.
  rewrite decide_True by (rewrite (length_app (body ++ eol)); lia).
  rewrite take_app_length, drop_app_length.
  rewrite slice_from_app, slice_to_app. cbn [mbind result_bind].
  by rewrite decide_False by (intros H; by apply H).
Qed.

(** Within the lengths whose sum with the terminator does not overflow,
    reading a body never panics (the allocation limits that [make] leaves
    out aside). *)
Lemma readRequestBody_no_panic c length :
  0 ≤ length ≤ MaxInt - 2 →
  ∃ r, readRequestBody c length = Ok r.
Proof.
  intros Hl. unfold readRequestBody, int_add. change (len eol) with 2.
  rewrite int_wrap_id by (unfold MinInt, MaxInt, intSize in *; lia).
  unfold make. rewrite decide_True by lia. cbn [mbind result_bind].
  unfold ReadFull. rewrite length_replicate.
  destruct (decide _) as [Hle|Hgt]; [|by eexists].
  assert (Hlen : len (take (Z.to_nat (length + 2)) (rd c)) = length + 2).
  { unfold len. rewrite length_take. lia. }
  unfold slice_from, slice_to.
  destruct (decide (0 ≤ length ≤ _)) as [_|Hn]; [|lia].
  cbn [mbind result_bind].
  destruct (decide (_ ≠ eol)); by eexists.
Qed.

(** ** The connection loop *)

Section LoopFacts.
Context {W H : Type} `{!memcache.Handler W H}.

(** More fuel never changes a result. *)
Lemma run_fuel_mono (n m : nat) (h : H) c w r :
  run n h c w = Some r → (n ≤ m)%nat → run m h c w = Some r.
Proof.
  revert m c w. induction n as [|n IH]; intros m c w; [done|].
  intros Hrun Hle. destruct m as [|m]; [lia|].
  cbn [run] in *.
  destruct (readRequestLine c) as [[[[req|] [e|]] c1]|p]; try done.
  destruct (decide (Command req = [])).
  - apply IH; [done|lia].
  - destruct (ServeMemcache h req c1 w) as [[[[e|] c2] w2]|p]; try done.
    apply IH; [done|lia].
Qed.

(** One iteration of the loop on a request that is dispatched and
    answered with the nil error: the loop goes on from the state the
    handler left. *)
Lemma run_dispatch (fuel : nat) (h : H) c w req c1 c2 w2 :
  readRequestLine c = Ok (Some req, None, c1) →
  Command req ≠ [] →
  ServeMemcache h req c1 w = Ok (None, c2, w2) →
  run (S fuel) h c w = run fuel h c2 w2.
Proof.
  intros Hline Hcmd Hserve. cbn [run].
  by rewrite Hline, decide_False, Hserve.
Qed.

(** At the end of the input the loop stops and closes the connection. *)
Lemma run_eof (fuel : nat) (h : H) c w :
  rd c = [] → run (S fuel) h c w = Some (Ok (Close c, w)).
Proof.
  intros Hrd. cbn [run]. unfold readRequestLine, ReadString.
  rewrite Hrd. cbn. by destruct c; simplify_eq/=.
Qed.

(** When no line feed is left in the input the loop stops and closes the
    connection; the handler is not called. *)
Lemma run_no_LF (fuel : nat) (h : H) c w :
  LF ∉ rd c → run (S fuel) h c w = Some (Ok (Close (set_rd c []), w)).
Proof.
  intros Hlf. cbn [run]. unfold readRequestLine, ReadString.
  by rewrite read_until_none.
Qed.
End LoopFacts.

(** ** The dispatcher *)

Ltac cmd_neq := intros; intuition discriminate.

(** Closed decidable facts, by evaluation. *)
Ltac by_eval := apply (bool_decide_unpack _); vm_compute; exact I.

Section DispatcherFacts.
Context {St : Type} `{!simplemmc.Handler St}.
Variable V : gostring.

Lemma fullHandler_get_gets cmd args c w :
  cmd = str "get" ∨ cmd = str "gets" →
  fullHandler V {| Command := cmd; Args := args |} c w =
  serve_get {| Command := cmd; Args := args |} c w.
Proof. intros Hc. unfold fullHandler. cbn [Command]. by rewrite decide_True. Qed.

Lemma fullHandler_storage cmd mode args c w :
  (cmd, mode) ∈ storage_commands →
  fullHandler V {| Command := cmd; Args := args |} c w =
  serve_set {| Command := cmd; Args := args |} c w.
Proof.
  intros Hc. unfold fullHandler. cbn [Command].
  unfold storage_commands in Hc. rewrite !elem_of_cons, elem_of_nil in Hc.
  destruct Hc as [[= -> ->]|[[= -> ->]|[[= -> ->]|[]]]].
  all: rewrite decide_False by cmd_neq; by rewrite decide_True by auto.
Qed.

(** What [get] does with one or more keys, by the result of the store. *)
Lemma fullHandler_get_spec key others c w data err s' :
  Handler_Get key (store w) = (data, err, s') →
  let req := {| Command := str "get"; Args := key :: others |} in
  let w' := Env s' (calls w ++ [CallGet key]) in
  (err = None →
     fullHandler V req c w =
     Ok (None, emit c (value_block key data ++ str "END" ++ eol), w')) ∧
  (err = Some ErrNotFound →
     fullHandler V req c w = Ok (None, emit c (str "END" ++ eol), w')) ∧
  (∀ e, err = Some e → e ≠ ErrNotFound →
     fullHandler V req c w =
     Ok (None, emit c (str "SERVER_ERROR " ++ Error e ++ eol), w')).
Proof.
  intros HGet req w'. subst req w'.
  rewrite fullHandler_get_gets by auto. unfold serve_get. cbn [Args Command].
  rewrite decide_False by (unfold len; cbn [length]; lia).
  rewrite decide_True by done.
  unfold slice_to. rewrite decide_True by (unfold len; cbn [length]; lia).
  cbn [mbind result_bind].
  change (take (Z.to_nat 1) (key :: others)) with [key].
  cbn [get_loop]. unfold h_Get. rewrite HGet.
  repeat split.
  - intros ->. rewrite decide_False by done.
    rewrite Value_emit, Status_emit, emit_emit. reflexivity.
  - intros ->. rewrite decide_True by done.
    rewrite Status_emit. reflexivity.
  - intros e -> Hne. rewrite decide_False by congruence.
    rewrite ServerError_emit. reflexivity.
Qed.

(** C2.  [get] with at least one argument asks the store for the first
    key only and discards the others; a found value is written as one
    value block followed by END, NotFound gives END alone, and any other
    error gives SERVER_ERROR without END. *)
Theorem get_honours_first_key_only key others c w data err s' :
  Handler_Get key (store w) = (data, err, s') →
  let req := {| Command := str "get"; Args := key :: others |} in
  let w' := Env s' (calls w ++ [CallGet key]) in
  (err = None →
     fullHandler V req c w =
     Ok (None, emit c (value_block key data ++ str "END" ++ eol), w')) ∧
  (err = Some ErrNotFound →
     fullHandler V req c w = Ok (None, emit c (str "END" ++ eol), w')) ∧
  (∀ e, err = Some e → e ≠ ErrNotFound →
     fullHandler V req c w =
     Ok (None, emit c (str "SERVER_ERROR " ++ Error e ++ eol), w')).
Proof. apply fullHandler_get_spec. Qed.

Lemma index_lookup {A} (l : list A) (i : Z) x :
  0 ≤ i → l !! Z.to_nat i = Some x → index l i = Ok x.
Proof.
  intros Hi Hl. unfold index. rewrite decide_True by done. by rewrite Hl.
Qed.

Lemma noreply_eval (args : list gostring) :
  4 ≤ len args →
  (if decide (len args = 5) then
     a ← index args 4; Ok (bool_decide (a = str "noreply"))
   else Ok false) = Ok (noreply_in_effect args).
Proof.
  intros Hlen. unfold noreply_in_effect. destruct (decide (len args = 5)) as [H5|H5].
  - destruct (lookup_lt_is_Some_2 args 4) as [a Ha]; [unfold len in H5; lia|].
    rewrite (index_lookup args 4 a) by (done || lia). cbn [mbind result_bind]. f_equal.
    apply bool_decide_ext. rewrite Ha. split; [by intros ->|].
    by intros [_ [= ->]].
  - f_equal. symmetry. apply bool_decide_eq_false. by intros [? _].
Qed.

Lemma run_after fuel c0 req c w c' w' :
  readRequestLine c0 = Ok (Some req, None, c) →
  Command req ≠ [] →
  fullHandler V req c w = Ok (None, c', w') →
  run (S fuel) (fullHandler V) c0 w = run fuel (fullHandler V) c' w'.
Proof. intros. by eapply run_dispatch. Qed.

Lemma storage_command_nonempty cmd mode :
  (cmd, mode) ∈ storage_commands → cmd ≠ [].
Proof.
  unfold storage_commands. rewrite !elem_of_cons, elem_of_nil.
  intros [[= -> ->]|[[= -> ->]|[[= -> ->]|[]]]]; discriminate.
Qed.

(** C4.  A storage command with fewer than four arguments is always
    answered with the format error, whatever its arguments are. *)
Theorem storage_too_few_args cmd mode args c w :
  (cmd, mode) ∈ storage_commands →
  len args < 4 →
  fullHandler V {| Command := cmd; Args := args |} c w =
  Ok (None, emit c (str "CLIENT_ERROR invalid command format" ++ eol), w).
Proof.
  intros Hc Hlen. rewrite (fullHandler_storage _ _ _ _ _ Hc).
  unfold serve_set. cbn [Args]. rewrite decide_True by done.
  by rewrite ClientError_emit.
Qed.

(** C5.  A storage command whose length argument is not a non-negative
    integer is answered with the length error, unless noreply is in
    effect; no body is read, the store is not called, and the loop goes
    on with the next request. *)
Theorem storage_bad_length cmd mode args a3 c w :
  (cmd, mode) ∈ storage_commands →
  args !! 3%nat = Some a3 →
  snd (Atoi a3) ≠ None ∨ fst (Atoi a3) < 0 →
  let req := {| Command := cmd; Args := args |} in
  let c' := if noreply_in_effect args then c
            else emit c (str "CLIENT_ERROR invalid data length" ++ eol) in
  fullHandler V req c w = Ok (None, c', w) ∧
  ∀ fuel c0,
    readRequestLine c0 = Ok (Some req, None, c) →
    run (S fuel) (fullHandler V) c0 w = run fuel (fullHandler V) c' w.
Proof.
  intros Hc Ha3 Hbad req c'.
  assert (Hlen : 4 ≤ len args).
  { apply lookup_lt_Some in Ha3. unfold len. lia. }
  assert (Hserve : fullHandler V req c w = Ok (None, c', w)).
  { subst req c'. rewrite (fullHandler_storage _ _ _ _ _ Hc).
    unfold serve_set. cbn [Args]. rewrite decide_False by lia.
    rewrite noreply_eval by done. cbn [mbind result_bind].
    rewrite (index_lookup args 3 a3) by (done || lia). cbn [mbind result_bind].
    destruct (Atoi a3) as [bodyLen err]. cbn [fst snd] in Hbad.
    rewrite decide_True by done.
    destruct (noreply_in_effect args); cbn [negb]; [done|].
    by rewrite ClientError_emit. }
  split; [done|]. intros fuel c0 Hline.
  eapply run_after; [done| |done].
  by eapply storage_command_nonempty.
Qed.

(** What a storage command does once its arguments and body are valid. *)
Lemma fullHandler_storage_spec cmd mode args key a3 n body c c1 w err s' :
  (cmd, mode) ∈ storage_commands →
  args !! 0%nat = Some key →
  args !! 3%nat = Some a3 →
  Atoi a3 = (n, None) → 0 ≤ n →
  ReadBody c n = Ok (body, None, c1) →
  Handler_Set key body mode (store w) = (err, s') →
  fullHandler V {| Command := cmd; Args := args |} c w =
  Ok (None,
      if noreply_in_effect args then c1 else emit c1 (store_reply err ++ eol),
      Env s' (calls w ++ [CallReadBody n; CallSet key body mode])).
Proof.
  intros Hc Hkey Ha3 Hatoi Hn Hbody HSet.
  assert (Hlen : 4 ≤ len args).
  { apply lookup_lt_Some in Ha3. unfold len. lia. }
  rewrite (fullHandler_storage _ _ _ _ _ Hc).
  unfold serve_set. cbn [Args Command]. rewrite decide_False by lia.
  rewrite noreply_eval by done. cbn [mbind result_bind].
  rewrite (index_lookup args 3 a3) by (done || lia). cbn [mbind result_bind].
  rewrite Hatoi. rewrite decide_False by (intros [?|?]; [done|lia]).
  unfold req_ReadBody. rewrite Hbody. cbn [mbind result_bind].
  rewrite (index_lookup args 0 key) by (done || lia). cbn [mbind result_bind].
  assert (Hmode : (if decide (cmd = str "set") then Set_
                   else if decide (cmd = str "add") then Add
                   else if decide (cmd = str "replace") then Replace
                   else Set_) = mode).
  { unfold storage_commands in Hc. rewrite !elem_of_cons, elem_of_nil in Hc.
    destruct Hc as [[= -> ->]|[[= -> ->]|[[= -> ->]|[]]]]; reflexivity. }
  rewrite Hmode. unfold h_Set. cbn [store calls]. rewrite HSet.
  rewrite <- app_assoc. cbn [app].
  destruct (noreply_in_effect args); cbn [negb]; [done|].
  destruct err as [e|]; [|by rewrite Status_emit].
  destruct (decide (e = ErrNotStored ∨ e = ErrNotFound ∨ e = ErrExists))
    as [[-> | [-> | ->]] | Hne].
  1-3: by rewrite Status_emit.
  rewrite ServerError_emit.
  destruct e; try reflexivity; exfalso; apply Hne; auto.
Qed.

(** C6.  A storage command with valid arguments and body calls
    Store.Set with the first argument as key, the body, and the mode of
    its command name (set: Set, add: Add, replace: Replace); it answers
    NOT_STORED, NOT_FOUND or EXISTS for these errors, SERVER_ERROR with
    the message for any other error, STORED for nil, and nothing at all
    when noreply is in effect. *)
Theorem storage_valid_request cmd mode args key a3 n body c c1 w err s' :
  (cmd, mode) ∈ storage_commands →
  args !! 0%nat = Some key →
  args !! 3%nat = Some a3 →
  Atoi a3 = (n, None) → 0 ≤ n →
  ReadBody c n = Ok (body, None, c1) →
  Handler_Set key body mode (store w) = (err, s') →
  fullHandler V {| Command := cmd; Args := args |} c w =
  Ok (None,
      if noreply_in_effect args then c1 else emit c1 (store_reply err ++ eol),
      Env s' (calls w ++ [CallReadBody n; CallSet key body mode])).
Proof. apply fullHandler_storage_spec. Qed.

(** C9.  [get] and [gets] without a key are answered with the client
    error; the store is not called, END is not written, and the loop
    goes on with the next request. *)
Theorem get_without_key cmd c w :
  cmd = str "get" ∨ cmd = str "gets" →
  let req := {| Command := cmd; Args := [] |} in
  let c' := emit c (str "CLIENT_ERROR key required" ++ eol) in
  fullHandler V req c w = Ok (None, c', w) ∧
  ∀ fuel c0,
    readRequestLine c0 = Ok (Some req, None, c) →
    run (S fuel) (fullHandler V) c0 w = run fuel (fullHandler V) c' w.
Proof.
  intros Hc req c'.
  assert (Hserve : fullHandler V req c w = Ok (None, c', w)).
  { subst req c'. rewrite fullHandler_get_gets by done.
    unfold serve_get. cbn [Args]. rewrite decide_True by done.
    by rewrite ClientError_emit. }
  split; [done|]. intros fuel c0 Hline.
  eapply run_after; [done| |done].
  destruct Hc as [-> | ->]; discriminate.
Qed.

(** The retrieval loop over keys whose results are all soft: every key
    is asked, in order, and the blocks of the found ones are written. *)
Lemma get_loop_soft keys c w rs s' :
  fetch keys (store w) = (rs, s') →
  Forall soft rs →
  ∃ c', get_loop keys c w = (true, c', Env s' (calls w ++ (CallGet <$> keys))) ∧
        ∀ msg, emit c' msg = emit c (concat (found_block <$> rs) ++ msg).
Proof.
  revert c w rs. induction keys as [|key keys IH]; intros c w rs.
  - intros [= <- <-] _. exists c. cbn [get_loop fmap list_fmap concat app].
    rewrite app_nil_r. by destruct w.
  - cbn [fetch get_loop]. unfold h_Get.
    destruct (Handler_Get key (store w)) as [[data err] s1] eqn:HGet.
    destruct (fetch keys s1) as [rs1 s2] eqn:Hfetch.
    intros [= <- <-] Hsoft. apply Forall_cons in Hsoft as [Hr Hsoft].
    pose (w1 := Env s1 (calls w ++ [CallGet key])).
    destruct (IH (if err is None then emit c (value_block key data) else c)
                w1 rs1 Hfetch Hsoft) as (c' & Hloop & Hemit).
    exists c'. cbn [fmap list_fmap] in *.
    replace (calls w ++ CallGet key :: (CallGet <$> keys))
      with (calls w1 ++ (CallGet <$> keys))
      by (subst w1; cbn [calls]; by rewrite <- app_assoc).
    destruct Hr as [Hr|Hr]; cbn [snd] in Hr; subst err.
    + rewrite decide_False by done. rewrite Value_emit. split; [done|].
      intros msg. rewrite Hemit, emit_emit.
      cbn [concat found_block]. by rewrite <- !app_assoc.
    + rewrite decide_True by done. split; [done|].
      intros msg. by rewrite Hemit.
Qed.

Lemma get_loop_app pre post c w :
  get_loop (pre ++ post) c w =
  match get_loop pre c w with
  | (true, c', w') => get_loop post c' w'
  | stopped => stopped
  end.
Proof.
  revert c w. induction pre as [|key pre IH]; intros c w; [done|].
  cbn [app get_loop]. destruct (h_Get key w) as [[data err] w1].
  destruct (decide (err = Some ErrNotFound)); [apply IH|].
  destruct err as [e|].
  - by destruct (ServerError c (Error e)).
  - destruct (Value c key data). apply IH.
Qed.

Lemma fullHandler_gets keys c w :
  keys ≠ [] →
  fullHandler V {| Command := str "gets"; Args := keys |} c w =
  match get_loop keys c w with
  | (true, c', w') => Ok (None, emit c' (str "END" ++ eol), w')
  | (false, c', w') => Ok (None, c', w')
  end.
Proof.
  intros Hne. rewrite fullHandler_get_gets by auto.
  unfold serve_get. cbn [Args Command].
  rewrite decide_False by (destruct keys; [done|unfold len; cbn [length]; lia]).
  rewrite decide_False by discriminate. cbn [mbind result_bind].
  by destruct (get_loop keys c w) as [[[] c'] w'].
Qed.

(** C3.  [gets] asks the store for every key in request order, writes a
    value block per found key and nothing for a key that is not found,
    and ends with END; at the first other error it writes one
    SERVER_ERROR line, no END, and asks for no further key. *)
Theorem gets_fetches_keys_in_order keys c w :
  keys ≠ [] →
  let req := {| Command := str "gets"; Args := keys |} in
  (∀ rs s',
     fetch keys (store w) = (rs, s') → Forall soft rs →
     fullHandler V req c w =
     Ok (None,
         emit c (concat (found_block <$> rs) ++ str "END" ++ eol),
         Env s' (calls w ++ (CallGet <$> keys)))) ∧
  (∀ pre key post rs s1 data e s',
     keys = pre ++ key :: post →
     fetch pre (store w) = (rs, s1) → Forall soft rs →
     Handler_Get key s1 = (data, Some e, s') → e ≠ ErrNotFound →
     fullHandler V req c w =
     Ok (None,
         emit c (concat (found_block <$> rs) ++ str "SERVER_ERROR "
                   ++ Error e ++ eol),
         Env s' (calls w ++ (CallGet <$> pre ++ [key])))).
Proof.
  intros Hne req. subst req. rewrite fullHandler_gets by done. split.
  - intros rs s' Hfetch Hsoft.
    destruct (get_loop_soft keys c w rs s' Hfetch Hsoft) as (c' & -> & Hemit).
    by rewrite Hemit.
  - intros pre key post rs s1 data e s' -> Hfetch Hsoft HGet He.
    rewrite get_loop_app.
    destruct (get_loop_soft pre c w rs s1 Hfetch Hsoft) as (c' & -> & Hemit).
    cbn [get_loop]. unfold h_Get. cbn [store calls]. rewrite HGet.
    rewrite decide_False by congruence.
    rewrite ServerError_emit, Hemit, fmap_app, <- !app_assoc. reflexivity.
Qed.
End DispatcherFacts.

(** ** Decimal lengths: [%d] and Atoi *)

Lemma digit_char_spec d :
  0 ≤ d < 10 →
  is_digit (digit_char d) = true ∧ digit_val (digit_char d) = d.
Proof.
  intros Hd.
  assert (Hcases : d = 0 ∨ d = 1 ∨ d = 2 ∨ d = 3 ∨ d = 4 ∨ d = 5 ∨ d = 6 ∨
                   d = 7 ∨ d = 8 ∨ d = 9) by lia.
  repeat (destruct Hcases as [-> | Hcases]; [by vm_compute|]).
  subst d. by vm_compute.
Qed.

Lemma is_digit_plain ch :
  is_digit ch = true →
  ch ≠ " "%char ∧ ch ≠ LF ∧ ch ≠ "-"%char ∧ ch ≠ "+"%char.
Proof. intros Hd. repeat split; intros ->; discriminate Hd. Qed.

Lemma parse_uint_loop_digit n d s :
  0 ≤ d < 10 → 0 ≤ n → n * 10 + d ≤ maxUint64 →
  parse_uint_loop n (digit_char d :: s) = parse_uint_loop (n * 10 + d) s.
Proof.
  intros Hd Hn Hmax. destruct (digit_char_spec d Hd) as [Hdig Hval].
  cbn [parse_uint_loop]. rewrite Hdig, Hval. cbn [negb].
  replace (maxUint64 / 10 + 1 <=? n) with false.
  2:{ symmetry. apply Z.leb_gt. unfold maxUint64 in *.
      change (2 ^ 64 - 1) with 18446744073709551615 in *.
      change (18446744073709551615 / 10) with 1844674407370955161. lia. }
  replace (maxUint64 <? n * 10 + d) with false
    by (symmetry; apply Z.ltb_ge; lia).
  reflexivity.
Qed.

(** Parsing the digits that [fmt_digits] wrote gives the number back. *)
Lemma parse_fmt_digits fuel u acc :
  0 ≤ u → u < 10 ^ Z.of_nat fuel → u ≤ maxUint64 →
  parse_uint_loop 0 (fmt_digits fuel u acc) = parse_uint_loop u acc.
Proof.
  revert u acc. induction fuel as [|fuel IH]; intros u acc Hu Hlt Hmax.
  - change (10 ^ Z.of_nat 0) with 1 in Hlt. by replace u with 0 by lia.
  - cbn [fmt_digits]. destruct (u <? 10) eqn:Hsmall.
    + apply Z.ltb_lt in Hsmall.
      rewrite parse_uint_loop_digit by lia. f_equal; lia.
    + apply Z.ltb_ge in Hsmall.
      rewrite Nat2Z.inj_succ, Z.pow_succ_r in Hlt by lia.
      rewrite IH.
      * rewrite parse_uint_loop_digit.
        -- f_equal; pose proof (Z.div_mod u 10); lia.
        -- apply Z.mod_pos_bound. lia.
        -- apply Z.div_pos; lia.
        -- pose proof (Z.div_mod u 10). lia.
      * apply Z.div_pos; lia.
      * apply Z.div_lt_upper_bound; lia.
      * pose proof (Z.div_le_upper_bound u 10 u). lia.
Qed.

Lemma fmt_digits_all_digits fuel u acc :
  0 ≤ u → Forall (λ ch, is_digit ch = true) acc →
  Forall (λ ch, is_digit ch = true) (fmt_digits fuel u acc).
Proof.
  revert u acc. induction fuel as [|fuel IH]; intros u acc Hu Hacc; [done|].
  cbn [fmt_digits]. destruct (u <? 10) eqn:Hsmall.
  - apply Z.ltb_lt in Hsmall. constructor; [|done].
    apply digit_char_spec. lia.
  - apply IH; [apply Z.div_pos; lia|]. constructor; [|done].
    apply digit_char_spec. apply Z.mod_pos_bound. lia.
Qed.

Lemma fmt_digits_not_nil fuel u acc :
  (fuel ≠ 0%nat ∨ acc ≠ []) → fmt_digits fuel u acc ≠ [].
Proof.
  revert u acc. induction fuel as [|fuel IH]; intros u acc Hne.
  - by destruct Hne.
  - cbn [fmt_digits]. destruct (u <? 10); [done|]. apply IH. by right.
Qed.

Lemma fmt_d_digits n :
  0 ≤ n → fmt_d n ≠ [] ∧ Forall (λ ch, is_digit ch = true) (fmt_d n).
Proof.
  intros Hn. unfold fmt_d.
  replace (n <? 0) with false by (symmetry; apply Z.ltb_ge; lia).
  split; [apply fmt_digits_not_nil; by left|].
  by apply fmt_digits_all_digits.
Qed.

Lemma fmt_d_no_byte n b :
  0 ≤ n → is_digit b = false → b ∉ fmt_d n.
Proof.
  intros Hn Hb Hin. destruct (fmt_d_digits n Hn) as [_ Hall].
  rewrite Forall_forall in Hall. apply Hall in Hin. congruence.
Qed.

(** Atoi reads back what [%d] writes, for every non-negative [int]. *)
Lemma Atoi_fmt_d n : 0 ≤ n ≤ MaxInt → Atoi (fmt_d n) = (n, None).
Proof.
  intros [Hn Hmax]. destruct (fmt_d_digits n Hn) as [Hne Hall].
  assert (Hparse : parse_uint_loop 0 (fmt_d n) = (n, None)).
  { unfold fmt_d. replace (n <? 0) with false by (symmetry; apply Z.ltb_ge; lia).
    rewrite parse_fmt_digits; [done|lia| |].
    - unfold MaxInt, intSize in Hmax. change (Z.of_nat 20) with 20. lia.
    - unfold MaxInt, intSize, maxUint64 in *. lia. }
  unfold Atoi, ParseInt. destruct (fmt_d n) as [|ch s] eqn:Hfmt; [done|].
  apply Forall_cons in Hall as [Hch _].
  destruct (is_digit_plain ch Hch) as (_ & _ & Hminus & Hplus).
  rewrite !bool_decide_eq_false_2 by done. cbn [orb negb andb].
  unfold ParseUint. rewrite Hparse. cbn [andb].
  replace (2 ^ (intSize - 1) <=? n) with false; [done|].
  symmetry. apply Z.leb_gt. unfold MaxInt in Hmax. lia.
Qed.

(** ** The round trip over the wire *)

Section RoundTrip.
Context {St : Type} `{!simplemmc.Handler St}.
Variable V : gostring.

Lemma set_line_tokens key (n : Z) :
  " "%char ∉ key → 0 ≤ n →
  Split (str "set " ++ key ++ str " 0 0 " ++ fmt_d n) " "%char =
  [str "set"; key; str "0"; str "0"; fmt_d n].
Proof.
  intros Hkey Hn.
  change (str "set " ++ key ++ str " 0 0 " ++ fmt_d n)
    with (str "set" ++ " "%char :: key ++ " "%char :: str "0" ++ " "%char
            :: str "0" ++ " "%char :: fmt_d n).
  rewrite (Split_app (str "set")) by by_eval.
  rewrite (Split_app key) by done.
  rewrite !(Split_app (str "0")) by by_eval.
  rewrite Split_no_sep; [done|]. by apply fmt_d_no_byte.
Qed.

Lemma get_line_tokens key :
  " "%char ∉ key → Split (str "get " ++ key) " "%char = [str "get"; key].
Proof.
  intros Hkey.
  change (str "get " ++ key) with (str "get" ++ " "%char :: key).
  rewrite (Split_app (str "get")) by by_eval. by rewrite Split_no_sep.
Qed.

Lemma set_request_len key body :
  len (set_request key body) =
  len key + len (fmt_d (len body)) + len body + 13.
Proof.
  unfold set_request. rewrite !len_app.
  change (len (str "set ")) with 4. change (len (str " 0 0 ")) with 5.
  change (len eol) with 2. lia.
Qed.

(** The two requests, read from any connection that carries them, are
    answered in turn, and the loop goes on with what follows them. *)
Lemma set_then_get fuel key body c w s1 s2 rest :
  " "%char ∉ key → LF ∉ key → go_len_ok (set_request key body) →
  Handler_Set key body Set_ (store w) = (None, s1) →
  Handler_Get key s1 = (body, None, s2) →
  rd c = set_request key body ++ get_request key ++ rest →
  run (S (S fuel)) (fullHandler V) c w =
  run fuel (fullHandler V)
    (emit (set_rd c rest)
       ((str "STORED" ++ eol) ++ value_block key body ++ str "END" ++ eol))
    (Env s2 (calls w ++ [CallReadBody (len body); CallSet key body Set_;
                         CallGet key])).
Proof.
  intros Hsp Hlf Hlen HSet HGet Hrd.
  pose proof (len_nonneg body) as Hbody. pose proof (len_nonneg key) as Hkey.
  pose proof (len_nonneg (fmt_d (len body))) as Hdigits.
  unfold go_len_ok in Hlen. rewrite set_request_len in Hlen.
  set (line1 := str "set " ++ key ++ str " 0 0 " ++ fmt_d (len body)).
  set (rest1 := body ++ eol ++ get_request key ++ rest).
  assert (Hline1 : readRequestLine c =
    Ok (Some {| Command := str "set";
                Args := [key; str "0"; str "0"; fmt_d (len body)] |},
        None, set_rd c rest1)).
  { rewrite (readRequestLine_ok c line1 rest1).
    - subst line1. by rewrite set_line_tokens.
    - subst line1. rewrite !not_elem_of_app.
      repeat split; [by_eval|done|by_eval|by apply fmt_d_no_byte].
    - unfold go_len_ok. subst line1. rewrite !len_app.
      change (len (str "set ")) with 4. change (len (str " 0 0 ")) with 5.
      change (len eol) with 2. lia.
    - rewrite Hrd. subst line1 rest1. unfold set_request.
      by rewrite <- !app_assoc. }
  assert (Hserve1 :
    fullHandler V {| Command := str "set";
                     Args := [key; str "0"; str "0"; fmt_d (len body)] |}
      (set_rd c rest1) w =
    Ok (None, emit (set_rd c (get_request key ++ rest)) (str "STORED" ++ eol),
        Env s1 (calls w ++ [CallReadBody (len body); CallSet key body Set_]))).
  { rewrite (fullHandler_storage_spec V (str "set") Set_ _ key
               (fmt_d (len body)) (len body) body _
               (set_rd c (get_request key ++ rest)) w None s1);
      [done|by_eval|done|done| |done| |done].
    - apply Atoi_fmt_d. unfold MaxInt, intSize in *. lia.
    - unfold ReadBody.
      rewrite (readRequestBody_ok _ body (get_request key ++ rest)); [done| |done].
      unfold go_len_ok. rewrite len_app. change (len eol) with 2. lia. }
  rewrite (run_after V _ _ _ _ _ _ _ Hline1 ltac:(discriminate) Hserve1).
  set (c2 := emit (set_rd c (get_request key ++ rest)) (str "STORED" ++ eol)).
  set (w2 := Env s1 _).
  assert (Hline2 : readRequestLine c2 =
    Ok (Some {| Command := str "get"; Args := [key] |}, None, set_rd c2 rest)).
  { rewrite (readRequestLine_ok c2 (str "get " ++ key) rest).
    - by rewrite get_line_tokens.
    - rewrite not_elem_of_app. split; [by_eval|done].
    - unfold go_len_ok. rewrite !len_app.
      change (len (str "get ")) with 4. change (len eol) with 2. lia.
    - subst c2. cbn [rd emit set_rd]. unfold get_request.
      by rewrite <- !app_assoc. }
  destruct (fullHandler_get_spec V key [] (set_rd c2 rest) w2 body None s2)
    as (Hserve2 & _); [done|].
  specialize (Hserve2 eq_refl). cbn zeta in Hserve2.
  rewrite (run_after V _ _ _ _ _ _ _ Hline2 ltac:(discriminate) Hserve2).
  subst c2 w2. f_equal.
  - unfold emit, set_rd. cbn [rd wbuf wire closed]. f_equal.
    by rewrite <- !app_assoc.
  - cbn [calls]. by rewrite <- app_assoc.
Qed.
End RoundTrip.

Section RoundTripClaim.
Context {St : Type} `{!simplemmc.Handler St}.

(** C7 (amended).  For every key without space and line feed bytes and
    every body, the set request being a byte sequence whose length fits
    [int]: when the store accepts Set(key, body, Set) and then returns
    the body for Get(key), the connection that carries the set request
    and the get request answers STORED and then the value block of the
    key with flags 0, the length of the body and cas 0, followed by
    END. *)
Theorem wire_roundtrip_plain_key (key : gostring) (body : bytes) :
  " "%char ∉ key → LF ∉ key → go_len_ok (set_request key body) →
  wire_roundtrip key body.
Proof.
  intros Hsp Hlf Hlen V s0 s1 s2 HSet HGet input.
  unfold HandleConnection.
  assert (Hrd : rd (newConn input) =
                set_request key body ++ get_request key ++ []).
  { subst input. cbn [rd newConn]. by rewrite app_nil_r. }
  pose proof (set_then_get V 1 key body (newConn input) (Env s0 []) s1 s2 []
                Hsp Hlf Hlen HSet HGet Hrd) as Hrun.
  rewrite (run_eof 0) in Hrun by reflexivity.
  eexists _, _. split.
  - eapply run_fuel_mono; [apply Hrun|].
    subst input. unfold set_request, get_request.
    rewrite !length_app. cbn [length str list_ascii_of_string]. lia.
  - cbn [wire Close emit set_rd newConn wbuf app]. unfold value_block.
    by rewrite <- !app_assoc.
Qed.
End RoundTripClaim.

(** C7 as stated fails for a key that contains a space: the request line
    is split at the space, so the sample store is asked to set and to get
    the key "a", and the value block names "a" instead of "a b". *)
Lemma wire_roundtrip_fails_on_key_with_space :
  ¬ wire_roundtrip (St := gmap gostring bytes) (str "a b") [].
Proof.
  intros Hrt.
  destruct (Hrt [] ∅ (<[str "a b" := []]> ∅) (<[str "a b" := []]> ∅))
    as (c & w & Hrun & Hwire); [by vm_compute..|].
  vm_compute in Hrun. injection Hrun as <- <-.
  vm_compute in Hwire. discriminate Hwire.
Qed.

(** ** The connection loop: empty commands and framing errors *)

Section LoopClaims.
Context {W : Type}.

(** The loop does not depend on what a handler would do with an empty
    command. *)
Lemma run_ignores_empty_command {H1 H2}
    `{!memcache.Handler W H1, !memcache.Handler W H2} (h1 : H1) (h2 : H2) :
  (∀ req c w, Command req ≠ [] →
              ServeMemcache h1 req c w = ServeMemcache h2 req c w) →
  ∀ fuel c w, run fuel h1 c w = run fuel h2 c w.
Proof.
  intros Hext fuel. induction fuel as [|fuel IH]; intros c w; [done|].
  cbn [run]. destruct (readRequestLine c) as [[[[req|] [e|]] c1]|p]; try done.
  destruct (decide (Command req = [])) as [|Hne]; [apply IH|].
  rewrite (Hext req c1 w Hne).
  destruct (ServeMemcache h2 req c1 w) as [[[[e|] c2] w2]|p];
    first [done|apply IH].
Qed.

(** A line whose first token is empty is skipped. *)
Lemma run_skips_empty_command {H} `{!memcache.Handler W H} (h : H)
    fuel c w line rest :
  LF ∉ line → go_len_ok (line ++ eol) →
  hd [] (Split line " "%char) = [] →
  rd c = line ++ eol ++ rest →
  run (S fuel) h c w = run fuel h (set_rd c rest) w.
Proof.
  intros Hlf Hlen Hempty Hrd. cbn [run].
  rewrite (readRequestLine_ok c line rest Hlf Hlen Hrd).
  cbn [Command]. by rewrite decide_True.
Qed.

(** C8.  The handler is never invoked with an empty command: the loop
    runs the same whatever the handler would do with one; and a line
    that is only CR LF, or whose first token is empty, is skipped: no
    dispatch, no response, no error, and the next line is read.  When
    the input ends after such a line the loop returns with the
    connection closed, nothing written and the handler never called;
    when a request follows, it is the one that is dispatched. *)
Theorem empty_command_never_dispatched :
  (∀ H1 H2 `(!memcache.Handler W H1) `(!memcache.Handler W H2)
     (h1 : H1) (h2 : H2),
     (∀ req c w, Command req ≠ [] →
                 ServeMemcache h1 req c w = ServeMemcache h2 req c w) →
     ∀ fuel c w, run fuel h1 c w = run fuel h2 c w) ∧
  (∀ H `(!memcache.Handler W H) (h : H) fuel c w line rest,
     LF ∉ line → go_len_ok (line ++ eol) →
     hd [] (Split line " "%char) = [] →
     rd c = line ++ eol ++ rest →
     readRequestLine c =
       Ok (Some {| Command := []; Args := tail (Split line " "%char) |},
           None, set_rd c rest) ∧
     run (S fuel) h c w = run fuel h (set_rd c rest) w ∧
     (LF ∉ rest →
      run (S (S fuel)) h c w = Some (Ok (Close (set_rd c []), w))) ∧
     (∀ req c1 e c2 w2,
        readRequestLine (set_rd c rest) = Ok (Some req, None, c1) →
        Command req ≠ [] →
        ServeMemcache h req c1 w = Ok (Some e, c2, w2) →
        run (S (S fuel)) h c w = Some (Ok (Close c2, w2)))).
Proof.
  split.
  - intros H1 H2 ? ? h1 h2. apply run_ignores_empty_command.
  - intros H ? h fuel c w line rest Hlf Hlen Hempty Hrd.
    assert (Hskip : ∀ n, run (S n) h c w = run n h (set_rd c rest) w)
      by (intros n; by eapply run_skips_empty_command).
    split; [|split; [|split]].
    + rewrite (readRequestLine_ok c line rest Hlf Hlen Hrd). by rewrite Hempty.
    + apply Hskip.
    + intros Hrest. rewrite Hskip. by rewrite run_no_LF.
    + intros req c1 e c2 w2 Hline Hcmd Hserve. rewrite Hskip. cbn [run].
      by rewrite Hline, decide_False, Hserve.
Qed.

(** A line of two or more bytes with a wrong terminator ends the loop:
    the connection is closed and nothing is written. *)
Lemma run_bad_eol_closes {H} `{!memcache.Handler W H} (h : H)
    fuel c w line rest :
  read_until LF (rd c) = Some (line, rest) →
  2 ≤ len line → go_len_ok line →
  drop (length line - 2) line ≠ eol →
  run (S fuel) h c w = Some (Ok (Close (set_rd c rest), w)).
Proof.
  intros Hread Hlo Hhi Htail. cbn [run].
  by rewrite (readRequestLine_bad_eol c line rest).
Qed.

(** C1 (defect).  On a line that is the single byte LF the decoder does
    not fail with errInvalidEOL: the slice expression panics, and the
    panic leaves the loop. *)
Theorem lone_LF_line_panics {H} `{!memcache.Handler W H} (h : H)
    fuel c rest w :
  readRequestLine (set_rd c (LF :: rest)) = Panic slice_bounds_out_of_range ∧
  run (S fuel) h (set_rd c (LF :: rest)) w
    = Some (Panic slice_bounds_out_of_range).
Proof.
  assert (Hline : readRequestLine (set_rd c (LF :: rest))
                  = Panic slice_bounds_out_of_range)
    by by apply (readRequestLine_short_line _ rest).
  split; [done|]. cbn [run]. by rewrite Hline.
Qed.
End LoopClaims.

(** ** Body lengths *)

Section BodyLength.
Context {St : Type} `{!simplemmc.Handler St}.
Variable V : gostring.

(** Whenever a storage command returns, the body lengths it asked for
    are not negative. *)
Lemma serve_set_ReadBody_nonneg req c w e c' w' :
  serve_set req c w = Ok (e, c', w') →
  ∀ n, CallReadBody n ∈ calls w' → CallReadBody n ∈ calls w ∨ 0 ≤ n.
Proof.
  intros Hs n Hin. unfold serve_set, req_ReadBody, h_Set in Hs.
  unfold mbind, result_bind in Hs.
  repeat (first [ case_decide | case_match ]; simplify_eq/=); auto.
  all: rewrite ?elem_of_app, ?list_elem_of_singleton in Hin.
  all: destruct_or?; simplify_eq; auto.
  all: right; lia.
Qed.

(** C10 (defect).  The largest [int] is a valid non-negative length for
    the dispatcher, but adding the terminator's length to it wraps
    around to a negative number: [make] panics in readRequestBody. *)
Theorem body_length_overflow_panics key flags exptime c w :
  Atoi (str "9223372036854775807") = (MaxInt, None) ∧
  0 ≤ MaxInt ∧
  ReadBody c MaxInt = Panic makeslice_len_out_of_range ∧
  fullHandler V {| Command := str "set";
                   Args := [key; flags; exptime; str "9223372036854775807"] |}
    c w = Panic makeslice_len_out_of_range.
Proof.
  assert (Hatoi : Atoi (str "9223372036854775807") = (MaxInt, None))
    by (by vm_compute).
  assert (Hbody : ∀ c, ReadBody c MaxInt = Panic makeslice_len_out_of_range).
  { intros c0. unfold ReadBody, readRequestBody.
    change (int_add MaxInt (len eol)) with (-9223372036854775807).
    unfold make. by rewrite decide_False by lia. }
  split; [done|]. split; [by vm_compute|]. split; [done|].
  rewrite (fullHandler_storage V (str "set") Set_) by by_eval.
  unfold serve_set. cbn [Args].
  rewrite decide_False by (unfold len; cbn [length]; lia).
  rewrite noreply_eval by (unfold len; cbn [length]; lia).
  cbn [mbind result_bind].
  rewrite (index_lookup _ 3 (str "9223372036854775807")) by (done || lia).
  cbn [mbind result_bind]. rewrite Hatoi.
  rewrite decide_False by (intros [?|?]; [done|by vm_compute in H0]).
  unfold req_ReadBody. by rewrite Hbody.
Qed.
End BodyLength.


(** ** Termination of the loop under the dispatcher *)

Section Termination.
Context {St : Type} `{!simplemmc.Handler St}.
Variable V : gostring.

Lemma readRequestLine_consumes c req c1 :
  readRequestLine c = Ok (Some req, None, c1) →
  (length (rd c1) < length (rd c))%nat.
Proof.
  unfold readRequestLine, ReadString.
  destruct (read_until LF (rd c)) as [[line rest]|] eqn:Hread; [|done].
  apply read_until_length in Hread as [Hlen Hpos].
  unfold mbind, result_bind. intros Hline.
  repeat (first [case_decide | case_match]; simplify_eq/=); lia.
Qed.

Lemma readRequestBody_rd_le c n body err c' :
  readRequestBody c n = Ok (body, err, c') →
  (length (rd c') ≤ length (rd c))%nat.
Proof.
  unfold readRequestBody, ReadFull, mbind, result_bind. intros Hbody.
  repeat (first [case_decide | case_match]; simplify_eq/=);
    rewrite ?length_drop; lia.
Qed.

Lemma get_loop_rd keys c w :
  rd (get_loop keys c w).1.2 = rd c.
Proof.
  revert c w. induction keys as [|key keys IH]; intros c w; [done|].
  cbn [get_loop]. destruct (h_Get key w) as [[data err] w1].
  destruct (decide (err = Some ErrNotFound)); [apply IH|].
  destruct err as [e|].
  - by rewrite ServerError_emit.
  - rewrite Value_emit. by rewrite IH.
Qed.

(** The dispatcher never puts input back. *)
Lemma fullHandler_rd_le req c w e c' w' :
  fullHandler V req c w = Ok (e, c', w') →
  (length (rd c') ≤ length (rd c))%nat.
Proof.
  unfold fullHandler. intros Hserve.
  repeat case_decide; simplify_eq/=; try done.
  - unfold serve_get, mbind, result_bind in Hserve.
    repeat (first [case_decide | case_match]; simplify_eq/=); try done.
    all: match goal with
         | Hl : get_loop ?k ?c ?w = _ |- _ =>
             pose proof (get_loop_rd k c w) as Hrd; rewrite Hl in Hrd;
             cbn in Hrd; by rewrite Hrd
         end.
  - unfold serve_set, req_ReadBody, ReadBody, h_Set, mbind, result_bind in Hserve.
    repeat (first [case_decide | case_match]; simplify_eq/=); try done.
    all: match goal with
         | Hb : readRequestBody _ _ = _ |- _ =>
             by apply readRequestBody_rd_le in Hb
         end.
  - unfold serve_del, h_Del, mbind, result_bind in Hserve.
    repeat (first [case_decide | case_match]; simplify_eq/=); done.
Qed.

(** On a finite input the loop under the dispatcher always ends: one
    unit of fuel per input byte, and one more, is enough. *)
Lemma run_fullHandler_ends (fuel : nat) c w :
  (length (rd c) < fuel)%nat →
  ∃ r, run fuel (fullHandler V) c w = Some r.
Proof.
  revert c w. induction fuel as [|fuel IH]; intros c w Hfuel; [lia|].
  cbn [run].
  destruct (readRequestLine c) as [[[[req|] [e|]] c1]|p] eqn:Hline;
    try by eexists.
  apply readRequestLine_consumes in Hline.
  destruct (decide (Command req = [])); [apply IH; lia|].
  unfold ServeMemcache, HandlerFunc_Handler.
  destruct (fullHandler V req c1 w) as [[[[e|] c2] w2]|p] eqn:Hserve;
    try by eexists.
  apply fullHandler_rd_le in Hserve. apply IH. lia.
Qed.
End Termination.

(** ** The statements at concrete requests *)

Lemma get_honours_first_key_only_witness :
  Handler_Get (str "k") sample_map = (str "abc", None, sample_map) ∧
  fullHandler (str "1.0") {| Command := str "get"; Args := [str "k"; str "x"] |}
    (newConn []) (Env sample_map []) =
  Ok (None,
      emit (newConn []) (value_block (str "k") (str "abc") ++ str "END" ++ eol),
      Env sample_map [CallGet (str "k")]).
Proof.
  assert (HGet : Handler_Get (str "k") sample_map = (str "abc", None, sample_map))
    by (vm_compute; reflexivity).
  split; [exact HGet|].
  exact (proj1 (get_honours_first_key_only (str "1.0") (str "k") [str "x"]
                  (newConn []) (Env sample_map []) (str "abc") None sample_map
                  HGet) eq_refl).
Defined.

Lemma gets_fetches_keys_in_order_witness :
  fullHandler (str "1.0")
    {| Command := str "gets"; Args := [str "a"; str "k"; str "b"] |}
    (newConn []) (Env sample_map []) =
  Ok (None,
      emit (newConn []) (value_block (str "k") (str "abc") ++ str "END" ++ eol),
      Env sample_map [CallGet (str "a"); CallGet (str "k"); CallGet (str "b")]) ∧
  fullHandler (str "1.0")
    {| Command := str "gets"; Args := [str "k"; str "bad"; str "b"] |}
    (newConn []) (Env sample_script []) =
  Ok (None,
      emit (newConn []) (value_block (str "k") (str "abc")
                           ++ str "SERVER_ERROR boom" ++ eol),
      Env sample_script [CallGet (str "k"); CallGet (str "bad")]).
Proof.
  split.
  - apply (proj1 (gets_fetches_keys_in_order (str "1.0")
                    [str "a"; str "k"; str "b"] (newConn []) (Env sample_map [])
                    ltac:(discriminate))
             [(str "a", [], Some ErrNotFound); (str "k", str "abc", None);
              (str "b", [], Some ErrNotFound)] sample_map).
    + vm_compute. reflexivity.
    + repeat constructor; (by left) || (by right).
  - apply (proj2 (gets_fetches_keys_in_order (str "1.0")
                    [str "k"; str "bad"; str "b"] (newConn [])
                    (Env sample_script []) ltac:(discriminate))
             [str "k"] (str "bad") [str "b"] [(str "k", str "abc", None)]
             sample_script [] (errors_New (str "boom")) sample_script).
    + reflexivity.
    + vm_compute. reflexivity.
    + repeat constructor; by left.
    + vm_compute. reflexivity.
    + discriminate.
Defined.

Lemma storage_too_few_args_witness :
  fullHandler (str "1.0")
    {| Command := str "set"; Args := [str "k"; str "0"; str "noreply"] |}
    (newConn []) (Env sample_map []) =
  Ok (None,
      emit (newConn []) (str "CLIENT_ERROR invalid command format" ++ eol),
      Env sample_map []).
Proof.
  apply (storage_too_few_args (str "1.0") (str "set") Set_).
  - by_eval.
  - vm_compute. reflexivity.
Defined.

Lemma storage_bad_length_witness :
  fullHandler (str "1.0")
    {| Command := str "set"; Args := [str "k"; str "0"; str "0"; str "-1"] |}
    (newConn []) (Env sample_map []) =
  Ok (None, emit (newConn []) (str "CLIENT_ERROR invalid data length" ++ eol),
      Env sample_map []).
Proof.
  apply (storage_bad_length (str "1.0") (str "set") Set_
           [str "k"; str "0"; str "0"; str "-1"] (str "-1")).
  - by_eval.
  - reflexivity.
  - right. vm_compute. reflexivity.
Defined.

Lemma storage_valid_request_witness :
  fullHandler (str "1.0")
    {| Command := str "add"; Args := [str "k"; str "0"; str "0"; str "1"] |}
    (newConn (str "x" ++ eol)) (Env sample_map []) =
  Ok (None, emit (newConn []) (str "NOT_STORED" ++ eol),
      Env sample_map [CallReadBody 1; CallSet (str "k") (str "x") Add]).
Proof.
  apply (storage_valid_request (str "1.0") (str "add") Add
           [str "k"; str "0"; str "0"; str "1"] (str "k") (str "1") 1 (str "x")
           (newConn (str "x" ++ eol)) (newConn []) (Env sample_map [])
           (Some ErrNotStored) sample_map).
  - by_eval.
  - reflexivity.
  - reflexivity.
  - vm_compute. reflexivity.
  - lia.
  - vm_compute. reflexivity.
  - vm_compute. reflexivity.
Defined.

Lemma wire_roundtrip_plain_key_witness :
  wire_roundtrip (St := gmap gostring bytes) (str "k") (str "abc").
Proof.
  apply wire_roundtrip_plain_key.
  - by_eval.
  - by_eval.
  - unfold go_len_ok. by_eval.
Defined.

Lemma empty_command_never_dispatched_witness :
  run 3 (fullHandler (str "1.0")) (newConn (eol ++ str "get k" ++ eol))
    (Env sample_map []) =
  run 3 (strict_on_empty (fullHandler (str "1.0")))
    (newConn (eol ++ str "get k" ++ eol)) (Env sample_map []) ∧
  run 3 (fullHandler (str "1.0")) (newConn (str " x" ++ eol ++ str "get k" ++ eol))
    (Env sample_map []) =
  run 2 (fullHandler (str "1.0")) (newConn (str "get k" ++ eol))
    (Env sample_map []) ∧
  run 2 (strict_on_empty (fullHandler (str "1.0")))
    (newConn (eol ++ str "get k")) (Env sample_map []) =
  Some (Ok (Close (newConn []), Env sample_map [])) ∧
  run 2 (fullHandler (str "1.0")) (newConn (str " x" ++ eol ++ str "quit" ++ eol))
    (Env sample_map []) =
  Some (Ok (Close (newConn []), Env sample_map [])).
Proof.
  split; [|split; [|split]].
  - apply (proj1 (@empty_command_never_dispatched (env (gmap gostring bytes)))
             _ _ _ _ (fullHandler (str "1.0"))
             (strict_on_empty (fullHandler (str "1.0")))).
    intros req c w Hne. unfold ServeMemcache, HandlerFunc_Handler, strict_on_empty.
    destruct (decide (Command req = [])) as [Hempty|_]; [destruct (Hne Hempty)|].
    reflexivity.
  - apply (proj2 (@empty_command_never_dispatched (env (gmap gostring bytes)))
             _ _ (fullHandler (str "1.0")) 2%nat
             (newConn (str " x" ++ eol ++ str "get k" ++ eol))
             (Env sample_map []) (str " x") (str "get k" ++ eol)).
    + by_eval.
    + unfold go_len_ok. by_eval.
    + reflexivity.
    + reflexivity.
  - apply (proj2 (@empty_command_never_dispatched (env (gmap gostring bytes)))
             _ _ (strict_on_empty (fullHandler (str "1.0"))) 0%nat
             (newConn (eol ++ str "get k"))
             (Env sample_map []) [] (str "get k")).
    + by_eval.
    + unfold go_len_ok. by_eval.
    + reflexivity.
    + reflexivity.
    + by_eval.
  - pose proof (proj2 (@empty_command_never_dispatched (env (gmap gostring bytes)))
                  _ _ (fullHandler (str "1.0")) 0%nat
                  (newConn (str " x" ++ eol ++ str "quit" ++ eol))
                  (Env sample_map []) (str " x") (str "quit" ++ eol)
                  ltac:(by_eval) ltac:(unfold go_len_ok; by_eval) eq_refl eq_refl)
      as (_ & _ & _ & Hnext).
    apply (Hnext {| Command := str "quit"; Args := [] |} (newConn [])
             ErrCloseConnection (newConn []) (Env sample_map [])).
    + vm_compute. reflexivity.
    + discriminate.
    + vm_compute. reflexivity.
Defined.

Lemma get_without_key_witness :
  fullHandler (str "1.0") {| Command := str "gets"; Args := [] |}
    (newConn []) (Env sample_map []) =
  Ok (None, emit (newConn []) (str "CLIENT_ERROR key required" ++ eol),
      Env sample_map []) ∧
  run 2 (fullHandler (str "1.0")) (newConn (str "gets" ++ eol)) (Env sample_map []) =
  run 1 (fullHandler (str "1.0"))
    (emit (newConn []) (str "CLIENT_ERROR key required" ++ eol))
    (Env sample_map []).
Proof.
  pose proof (get_without_key (str "1.0") (str "gets") (newConn [])
                (Env sample_map []) (or_intror eq_refl)) as [Hserve Hloop].
  split; [exact Hserve|].
  apply (Hloop 1%nat (newConn (str "gets" ++ eol))).
  vm_compute. reflexivity.
Defined.


(** ** Sessions

    The wire examples of the protocol, run through the whole loop. *)

Example session_set_get :
  session (str "set k 0 0 3" ++ eol ++ str "abc" ++ eol ++ str "get k" ++ eol) =
  Some (Ok (str "STORED" ++ eol ++ str "VALUE k 0 3 0" ++ eol ++ str "abc" ++ eol
              ++ str "END" ++ eol)).
Proof. vm_compute. reflexivity. Qed.

Example session_get_missing :
  session (str "get missing" ++ eol) = Some (Ok (str "END" ++ eol)).
Proof. vm_compute. reflexivity. Qed.

Example session_set_noreply :
  session (str "set k 0 0 3 noreply" ++ eol ++ str "abc" ++ eol
             ++ str "get k" ++ eol) =
  Some (Ok (str "VALUE k 0 3 0" ++ eol ++ str "abc" ++ eol ++ str "END" ++ eol)).
Proof. vm_compute. reflexivity. Qed.

Example session_gets_order :
  session (str "set a 0 0 1" ++ eol ++ str "x" ++ eol ++ str "gets a b" ++ eol) =
  Some (Ok (str "STORED" ++ eol ++ str "VALUE a 0 1 0" ++ eol ++ str "x" ++ eol
              ++ str "END" ++ eol)).
Proof. vm_compute. reflexivity. Qed.

Example session_add_existing :
  session (str "set k 0 0 1" ++ eol ++ str "x" ++ eol
             ++ str "add k 0 0 1" ++ eol ++ str "y" ++ eol ++ str "get k" ++ eol) =
  Some (Ok (str "STORED" ++ eol ++ str "NOT_STORED" ++ eol
              ++ str "VALUE k 0 1 0" ++ eol ++ str "x" ++ eol ++ str "END" ++ eol)).
Proof. vm_compute. reflexivity. Qed.

Example session_negative_length :
  session (str "set k 0 0 -1" ++ eol ++ str "bogus" ++ eol) =
  Some (Ok (str "CLIENT_ERROR invalid data length" ++ eol ++ str "ERROR" ++ eol)).
Proof. vm_compute. reflexivity. Qed.

Example session_bad_eol :
  session (str "get k" ++ [LF] ++ str "get k" ++ eol) = Some (Ok []).
Proof. vm_compute. reflexivity. Qed.

Example session_quit :
  session (str "quit" ++ eol ++ str "get k" ++ eol) = Some (Ok []).
Proof. vm_compute. reflexivity. Qed.

Example session_empty_lines :
  session (eol ++ str " get k" ++ eol ++ str "version" ++ eol) =
  Some (Ok (str "VERSION 1.0" ++ eol)).
Proof. vm_compute. reflexivity. Qed.

Example session_key_with_space :
  session (str "set a b 0 0 0" ++ eol ++ eol ++ str "get a b" ++ eol) =
  Some (Ok (str "STORED" ++ eol ++ str "VALUE a 0 0 0" ++ eol ++ eol
              ++ str "END" ++ eol)).
Proof. vm_compute. reflexivity. Qed.

Example session_lone_LF :
  session [LF] = Some (Panic slice_bounds_out_of_range).
Proof. vm_compute. reflexivity. Qed.

Example session_length_overflow :
  session (str "set k 0 0 9223372036854775807" ++ eol) =
  Some (Panic makeslice_len_out_of_range) ∧
  session (str "add k 0 0 9223372036854775806 noreply" ++ eol) =
  Some (Panic makeslice_len_out_of_range).
Proof. vm_compute. split; reflexivity. Qed.


(** ** Request lines: encoding and decoding *)

Lemma Join_cons tok tok' toks sep :
  Join (tok :: tok' :: toks) sep = tok ++ sep :: Join (tok' :: toks) sep.
Proof. reflexivity. Qed.

Lemma Split_Join toks sep :
  toks ≠ [] → Forall (λ tok, sep ∉ tok) toks →
  Split (Join toks sep) sep = toks.
Proof.
  induction toks as [|tok toks IH]; [done|]. intros _ Hall.
  apply Forall_cons in Hall as [Htok Hall]. destruct toks as [|tok' toks].
  - by apply Split_no_sep.
  - rewrite Join_cons, Split_app by done. f_equal. by apply IH.
Qed.

Lemma Join_Split s sep : Join (Split s sep) sep = s.
Proof.
  induction s as [|ch s IH]; [done|]. cbn [Split].
  pose proof (Split_not_nil s sep) as Hne.
  destruct (decide (ch = sep)) as [->|Hch].
  - destruct (Split s sep) as [|part parts]; [done|].
    rewrite Join_cons. cbn [app]. by rewrite IH.
  - destruct (Split s sep) as [|part parts]; [done|].
    rewrite <- IH. by destruct parts.
Qed.

Lemma Split_tokens_no_sep s sep : Forall (λ tok, sep ∉ tok) (Split s sep).
Proof.
  induction s as [|ch s IH]; cbn [Split].
  - repeat constructor. by apply not_elem_of_nil.
  - destruct (decide (ch = sep)) as [->|Hch].
    + constructor; [apply not_elem_of_nil|done].
    + destruct (Split s sep) as [|part parts].
      * repeat constructor. rewrite list_elem_of_singleton. congruence.
      * apply Forall_cons in IH as [Hpart Hparts]. constructor; [|done].
        rewrite not_elem_of_cons. split; [congruence|done].
Qed.

Lemma elem_of_Join b tok toks sep :
  b ∈ tok → tok ∈ toks → b ∈ Join toks sep.
Proof.
  intros Hb. induction toks as [|tok0 toks IH]; [by rewrite elem_of_nil|].
  rewrite elem_of_cons. intros [->|Hin].
  - destruct toks; [done|]. rewrite Join_cons, elem_of_app. by left.
  - destruct toks as [|tok1 toks]; [by apply elem_of_nil in Hin|].
    rewrite Join_cons, elem_of_app, elem_of_cons. right. right. by apply IH.
Qed.

Lemma not_elem_of_Join b toks sep :
  b ≠ sep → Forall (λ tok, b ∉ tok) toks → b ∉ Join toks sep.
Proof.
  intros Hsep. induction toks as [|tok toks IH]; [intros _; apply not_elem_of_nil|].
  intros Hall. apply Forall_cons in Hall as [Htok Hall].
  destruct toks as [|tok' toks]; [done|].
  rewrite Join_cons, not_elem_of_app, not_elem_of_cons. auto.
Qed.

Lemma read_until_spec delim s line rest :
  read_until delim s = Some (line, rest) →
  ∃ pre, line = pre ++ [delim] ∧ (delim ∉ pre) ∧ s = line ++ rest.
Proof.
  revert line rest. induction s as [|b s IH]; intros line rest; [done|].
  cbn [read_until]. destruct (decide (b = delim)) as [->|Hb].
  - intros [= <- <-]. exists []. split; [done|]. split; [apply not_elem_of_nil|done].
  - destruct (read_until delim s) as [[l r]|] eqn:Hread; [|done].
    intros [= <- <-]. destruct (IH l r eq_refl) as (pre & -> & Hpre & ->).
    exists (b :: pre). split; [done|]. split; [|done].
    rewrite not_elem_of_cons. split; [congruence|done].
Qed.

Lemma slice_from_to_inv {A} (s : list A) i tl hd :
  slice_from s i = Ok tl → slice_to s i = Ok hd → s = hd ++ tl.
Proof.
  unfold slice_from, slice_to. repeat case_decide; try done.
  intros [= <-] [= <-]. by rewrite take_drop.
Qed.

(** X1.  Decoding inverts encoding: a command and arguments that are
    plain tokens, written as one line with single spaces and CR LF, are
    decoded to exactly that command and those arguments, and exactly the
    line is consumed. *)
Theorem request_line_decodes_to_its_tokens c cmd args rest :
  Forall plain (cmd :: args) →
  go_len_ok (Join (cmd :: args) " "%char ++ eol) →
  rd c = Join (cmd :: args) " "%char ++ eol ++ rest →
  readRequestLine c =
  Ok (Some {| Command := cmd; Args := args |}, None, set_rd c rest).
Proof.
  intros Hplain Hlen Hrd.
  rewrite (readRequestLine_ok c (Join (cmd :: args) " "%char) rest); [|  |done|done].
  - rewrite Split_Join; [done|done|].
    eapply Forall_impl; [exact Hplain|]. by intros tok [? ?].
  - apply not_elem_of_Join; [discriminate|].
    eapply Forall_impl; [exact Hplain|]. by intros tok [? ?].
Qed.

(** X2.  Encoding inverts decoding: whenever a request is decoded, the
    input began with its command and arguments joined by single spaces
    and followed by CR LF, the tokens are plain, exactly that line was
    consumed, and nothing else of the connection changed. *)
Theorem decoded_request_is_the_line c req c' :
  readRequestLine c = Ok (Some req, None, c') →
  rd c = Join (Command req :: Args req) " "%char ++ eol ++ rd c' ∧
  Forall plain (Command req :: Args req) ∧
  c' = set_rd c (rd c').
Proof.
  unfold readRequestLine, ReadString.
  destruct (read_until LF (rd c)) as [[line rest]|] eqn:Hread; [|done].
  apply read_until_spec in Hread as (pre & -> & Hpre & Hrd).
  unfold mbind, result_bind.
  destruct (slice_from _ _) as [tl|] eqn:Htl; [|done].
  destruct (decide (tl ≠ eol)) as [|Heol]; [done|].
  assert (tl = eol) as -> by (by destruct (decide (tl = eol))).
  destruct (slice_to _ _) as [hd|] eqn:Hhd; [|done].
  pose proof (slice_from_to_inv _ _ _ _ Htl Hhd) as Hline.
  assert (Hhead : pre = hd ++ [CR]).
  { change eol with ([CR] ++ [LF]) in Hline. rewrite app_assoc in Hline.
    by apply app_inj_tail in Hline as [? _]. }
  pose proof (Split_not_nil hd " "%char) as Hne.
  pose proof (Join_Split hd " "%char) as Hjoin.
  pose proof (Split_tokens_no_sep hd " "%char) as Hsp.
  destruct (Split hd " "%char) as [|command args] eqn:Hsplit; [done|].
  rewrite decide_False by (unfold len; cbn [length]; lia).
  unfold index, slice_from. cbn [Z.to_nat lookup list_lookup].
  rewrite decide_True by lia.
  rewrite decide_True by (unfold len; cbn [length]; lia).
  intros [= <- <-]. cbn [Command Args rd set_rd]. rewrite drop_0.
  split; [|split; [|done]].
  - rewrite Hjoin, Hrd, Hline, <- !app_assoc. reflexivity.
  - rewrite Forall_forall in Hsp. apply Forall_forall. intros tok Htok.
    split; [by apply Hsp|]. intros Hlf. apply Hpre. rewrite Hhead, elem_of_app.
    left. rewrite <- Hjoin. by eapply elem_of_Join.
Qed.

(** ** The ends of a connection *)

Section LoopEnds.
Context {W H : Type} `{!memcache.Handler W H}.

(** X3.  Input that ends before a line feed (an incomplete last line, or
    no input at all) is read away with io.EOF: the loop stops, closes the
    connection, writes nothing and does not call the handler. *)
Theorem incomplete_line_ends_the_loop (h : H) fuel c w :
  LF ∉ rd c →
  readRequestLine c = Ok (None, Some io_EOF, set_rd c []) ∧
  run (S fuel) h c w = Some (Ok (Close (set_rd c []), w)).
Proof.
  intros Hlf.
  assert (Hline : readRequestLine c = Ok (None, Some io_EOF, set_rd c [])).
  { unfold readRequestLine, ReadString. by rewrite read_until_none. }
  split; [done|]. cbn [run]. by rewrite Hline.
Qed.

(** X4.  A line of two or more bytes that ends in LF without a CR before
    it is refused with errInvalidEOL: the loop stops and closes the
    connection, nothing is written, the handler is not called, and what
    follows the line is left unread. *)
Theorem bare_LF_line_ends_the_loop (h : H) fuel c w pre b rest :
  LF ∉ pre → b ≠ CR → b ≠ LF → go_len_ok (pre ++ [b; LF]) →
  rd c = pre ++ [b; LF] ++ rest →
  readRequestLine c = Ok (None, Some errInvalidEOL, set_rd c rest) ∧
  run (S fuel) h c w = Some (Ok (Close (set_rd c rest), w)).
Proof.
  intros Hpre Hcr Hlf Hlen Hrd.
  assert (Hline : readRequestLine c = Ok (None, Some errInvalidEOL, set_rd c rest)).
  { apply (readRequestLine_bad_eol c (pre ++ [b; LF]) rest).
    - rewrite Hrd. change (pre ++ [b; LF] ++ rest) with (pre ++ [b] ++ LF :: rest).
      rewrite app_assoc, read_until_app.
      + by rewrite <- app_assoc.
      + rewrite not_elem_of_app, list_elem_of_singleton. split; [done|congruence].
    - rewrite len_app. pose proof (len_nonneg pre). change (len [b; LF]) with 2. lia.
    - done.
    - rewrite length_app. cbn [length].
      replace (length pre + 2 - 2)%nat with (length pre) by lia.
      rewrite drop_app_length. unfold eol. congruence. }
  split; [done|]. cbn [run]. by rewrite Hline.
Qed.
End LoopEnds.

(** ** Bodies *)

(** X5.  A body is returned only as declared: when readRequestBody
    succeeds, the length is not negative, the body has exactly that
    length, the input began with the body followed by CR LF, exactly
    these bytes were consumed, and nothing else of the connection
    changed. *)
Theorem body_is_read_as_declared c length body c' :
  readRequestBody c length = Ok (body, None, c') →
  0 ≤ length ∧ len body = length ∧
  rd c = body ++ eol ++ rd c' ∧ c' = set_rd c (rd c').
Proof.
  unfold readRequestBody, mbind, result_bind.
  destruct (make _) as [buf|] eqn:Hmake; [|done].
  unfold make in Hmake. case_decide as Hm; [|done]. injection Hmake as <-.
  unfold ReadFull. rewrite length_replicate.
  destruct (decide _) as [Hle|]; [|done].
  set (m := Z.to_nat (int_add length (len eol))) in *.
  destruct (slice_from _ _) as [tl|] eqn:Htl; [|done].
  destruct (decide (tl ≠ eol)) as [|Heol]; [done|].
  assert (tl = eol) as -> by (by destruct (decide (tl = eol))).
  destruct (slice_to _ _) as [hd|] eqn:Hhd; [|done].
  intros [= <- <-]. pose proof (slice_from_to_inv _ _ _ _ Htl Hhd) as Hbuf.
  unfold slice_to in Hhd. case_decide as Hrange; [|done]. injection Hhd as <-.
  cbn [rd set_rd]. split; [lia|]. split.
  - unfold len. rewrite length_take, length_take. unfold len in Hrange.
    rewrite length_take in Hrange. lia.
  - split; [|done]. rewrite app_assoc, <- Hbuf. by rewrite take_drop.
Qed.

(** X6.  A short input never gives a body: whenever readRequestBody
    returns with fewer bytes left than the declared length and its
    terminator, it returns no body and the error io.EOF if nothing was
    left and io.ErrUnexpectedEOF otherwise, and all the input is
    consumed. *)
Theorem short_body_is_an_io_error c length r :
  0 ≤ length ≤ MaxInt →
  len (rd c) < length + 2 →
  readRequestBody c length = Ok r →
  r = ([], Some (if decide (rd c = []) then io_EOF else io_ErrUnexpectedEOF),
       set_rd c []).
Proof.
  intros Hl Hshort. unfold readRequestBody, make, int_add.
  change (len eol) with 2.
  destruct (decide (0 ≤ int_wrap (length + 2))) as [Hm|]; [|done].
  assert (Hsum : int_wrap (length + 2) = length + 2).
  { destruct (decide (length + 2 ≤ MaxInt)) as [Hfit|Hover].
    - apply int_wrap_id. unfold MinInt, MaxInt, intSize in *. lia.
    - exfalso. revert Hm. unfold int_wrap, MaxInt, intSize in *.
      change (2 ^ (64 - 1)) with 9223372036854775808 in *.
      change (2 ^ 64) with 18446744073709551616.
      replace (length + 2 + 9223372036854775808)
        with (length + 2 - 9223372036854775808 + 1 * 18446744073709551616)
        by lia.
      rewrite Z.mod_add by done. rewrite Z.mod_small; lia. }
  rewrite Hsum. cbn [mbind result_bind].
  unfold ReadFull. rewrite length_replicate.
  rewrite decide_False by (unfold len in Hshort; lia).
  by intros [= <-].
Qed.

(** X7.  When the bytes after the declared length are not CR LF, the
    read fails with errInvalidEOL, no body is returned, and exactly the
    declared length and two more bytes are consumed. *)
Theorem unterminated_body_is_a_framing_error c chunk rest :
  2 ≤ len chunk ≤ MaxInt →
  drop (length chunk - 2) chunk ≠ eol →
  rd c = chunk ++ rest →
  readRequestBody c (len chunk - 2) =
  Ok ([], Some errInvalidEOL, set_rd c rest).
Proof.
  intros Hl Htail Hrd. unfold readRequestBody, int_add. change (len eol) with 2.
  rewrite int_wrap_id by (unfold MinInt, MaxInt, intSize in *; lia).
  unfold make. rewrite decide_True by lia. cbn [mbind result_bind].
  unfold ReadFull. rewrite length_replicate.
  replace (Z.to_nat (len chunk - 2 + 2)) with (length chunk)
    by (unfold len; lia).
  rewrite Hrd, decide_True by (rewrite length_app; lia).
  rewrite take_app_length, drop_app_length.
  unfold slice_from. rewrite decide_True by lia. cbn [mbind result_bind].
  replace (Z.to_nat (len chunk - 2)) with (length chunk - 2)%nat
    by (unfold len in *; lia).
  by rewrite decide_True.
Qed.

(** X8.  A negative length never gives a body: with input pending,
    readRequestBody panics, in [make] for a length below -2 and in the
    slice expression [body[length:]] for -2 and -1. *)
Theorem negative_length_panics c length :
  MinInt ≤ length < 0 → rd c ≠ [] →
  readRequestBody c length =
  Panic (if decide (length < -2) then makeslice_len_out_of_range
         else slice_bounds_out_of_range).
Proof.
  intros Hl Hrd. unfold readRequestBody, int_add. change (len eol) with 2.
  rewrite int_wrap_id by (unfold MinInt, MaxInt, intSize in *; lia).
  unfold make. destruct (decide (length < -2)) as [Hlow|Hhigh].
  - by rewrite decide_False by lia.
  - rewrite decide_True by lia. cbn [mbind result_bind].
    unfold ReadFull. rewrite length_replicate.
    rewrite decide_True.
    2:{ destruct (rd c); [done|]. cbn [List.length]. lia. }
    unfold slice_from. by rewrite decide_False by lia.
Qed.

(** ** The dispatcher: the remaining commands *)

Section DispatcherMore.
Context {St : Type} `{!simplemmc.Handler St}.
Variable V : gostring.

(** X9.  When the body of a storage command cannot be read (short input
    or a wrong terminator), the store is not called; the error is
    reported as SERVER_ERROR with its message unless noreply is in
    effect, and the handler returns the nil error, so the loop goes on
    with the input that is left. *)
Theorem storage_body_failure_skips_the_store
    cmd mode args a3 n c junk e c1 w :
  (cmd, mode) ∈ storage_commands →
  args !! 3%nat = Some a3 →
  Atoi a3 = (n, None) → 0 ≤ n →
  ReadBody c n = Ok (junk, Some e, c1) →
  fullHandler V {| Command := cmd; Args := args |} c w =
  Ok (None,
      if noreply_in_effect args then c1
      else emit c1 (str "SERVER_ERROR " ++ Error e ++ eol),
      Env (store w) (calls w ++ [CallReadBody n])).
Proof.
  intros Hc Ha3 Hatoi Hn Hbody.
  assert (Hlen : 4 ≤ len args).
  { apply lookup_lt_Some in Ha3. unfold len. lia. }
  rewrite (fullHandler_storage _ _ _ _ _ _ Hc).
  unfold serve_set. cbn [Args Command]. rewrite decide_False by lia.
  rewrite noreply_eval by done. cbn [mbind result_bind].
  rewrite (index_lookup args 3 a3) by (done || lia). cbn [mbind result_bind].
  rewrite Hatoi. rewrite decide_False by (intros [?|?]; [done|lia]).
  unfold req_ReadBody. rewrite Hbody. cbn [mbind result_bind].
  destruct (noreply_in_effect args); cbn [negb]; [done|].
  by rewrite ServerError_emit.
Qed.

Lemma fullHandler_del args c w :
  fullHandler V {| Command := str "del"; Args := args |} c w =
  serve_del {| Command := str "del"; Args := args |} c w.
Proof.
  unfold fullHandler. cbn [Command].
  rewrite !decide_False by cmd_neq. by rewrite decide_True.
Qed.

Lemma del_noreply_eval (args : list gostring) :
  1 ≤ len args →
  (if decide (len args = 2) then
     a ← index args 1; Ok (bool_decide (a = str "noreply"))
   else Ok false) = Ok (del_noreply args).
Proof.
  intros Hlen. unfold del_noreply. destruct (decide (len args = 2)) as [H2|H2].
  - destruct (lookup_lt_is_Some_2 args 1) as [a Ha]; [unfold len in H2; lia|].
    rewrite (index_lookup args 1 a) by (done || lia).
    cbn [mbind result_bind]. f_equal.
    apply bool_decide_ext. rewrite Ha. split; [by intros ->|].
    by intros [_ [= ->]].
  - f_equal. symmetry. apply bool_decide_eq_false. by intros [? _].
Qed.

(** X10.  [del] without a key is answered with the format error; the
    store is not called. *)
Theorem del_without_key c w :
  fullHandler V {| Command := str "del"; Args := [] |} c w =
  Ok (None, emit c (str "CLIENT_ERROR invalid command format" ++ eol), w).
Proof.
  rewrite fullHandler_del. unfold serve_del. cbn [Args].
  rewrite decide_True by done. by rewrite ClientError_emit.
Qed.

(** X11.  [del] with a key calls Store.Del once, with the first
    argument, and reads no body; it answers NOT_FOUND for ErrNotFound,
    SERVER_ERROR with the message for any other error and DELETED for
    nil, and nothing at all when there are exactly two arguments and the
    second is noreply. *)
Theorem del_calls_the_store_once key others c w err s' :
  Handler_Del key (store w) = (err, s') →
  fullHandler V {| Command := str "del"; Args := key :: others |} c w =
  Ok (None,
      if del_noreply (key :: others) then c
      else emit c (del_reply err ++ eol),
      Env s' (calls w ++ [CallDel key])).
Proof.
  intros HDel. rewrite fullHandler_del. unfold serve_del. cbn [Args].
  rewrite decide_False by (unfold len; cbn [length]; lia).
  rewrite del_noreply_eval by (unfold len; cbn [length]; lia).
  cbn [mbind result_bind].
  rewrite (index_lookup _ 0 key) by (done || lia). cbn [mbind result_bind].
  unfold h_Del. rewrite HDel.
  destruct (del_noreply (key :: others)); cbn [negb]; [done|].
  destruct err as [e|]; [|by rewrite Status_emit].
  destruct (decide (e = ErrNotFound)) as [->|Hne].
  - by rewrite Status_emit.
  - rewrite ServerError_emit. by destruct e.
Qed.

(** X12.  A command the dispatcher does not know is answered with ERROR,
    whatever its arguments; the store is not called, no body is read,
    and the loop goes on with the next line. *)
Theorem unknown_command_is_an_error cmd args c w :
  cmd ∉ known_commands →
  let req := {| Command := cmd; Args := args |} in
  fullHandler V req c w = Ok (None, emit c (str "ERROR" ++ eol), w) ∧
  (cmd ≠ [] →
   ∀ fuel c0,
     readRequestLine c0 = Ok (Some req, None, c) →
     run (S fuel) (fullHandler V) c0 w =
     run fuel (fullHandler V) (emit c (str "ERROR" ++ eol)) w).
Proof.
  intros Hcmd req.
  assert (Hserve : fullHandler V req c w = Ok (None, emit c (str "ERROR" ++ eol), w)).
  { subst req. unfold fullHandler. cbn [Command].
    unfold known_commands in Hcmd. rewrite !not_elem_of_cons in Hcmd.
    destruct Hcmd as (? & ? & ? & ? & ? & ? & ? & ? & _).
    rewrite !decide_False by (intuition congruence).
    unfold UnknownCommandError. by rewrite Status_emit. }
  split; [done|]. intros Hne fuel c0 Hline. by eapply run_after.
Qed.

(** X13.  [quit] ends the loop: whatever its arguments, nothing is
    written, the store is not called, the connection is closed and what
    follows the line is never read. *)
Theorem quit_closes_the_connection args fuel c0 c w :
  readRequestLine c0 = Ok (Some {| Command := str "quit"; Args := args |}, None, c) →
  fullHandler V {| Command := str "quit"; Args := args |} c w =
    Ok (Some ErrCloseConnection, c, w) ∧
  run (S fuel) (fullHandler V) c0 w = Some (Ok (Close c, w)).
Proof.
  intros Hline.
  assert (Hserve : fullHandler V {| Command := str "quit"; Args := args |} c w =
                   Ok (Some ErrCloseConnection, c, w)).
  { unfold fullHandler. cbn [Command].
    rewrite !decide_False by cmd_neq. by rewrite decide_True. }
  split; [done|]. cbn [run]. rewrite Hline. cbn [Command].
  rewrite decide_False by discriminate.
  unfold ServeMemcache, HandlerFunc_Handler. by rewrite Hserve.
Qed.
End DispatcherMore.

(** ** What the loop keeps *)

(** X14.  However the loop ends normally, with whatever handler, the
    connection it leaves is closed. *)
Theorem loop_leaves_the_connection_closed {W H} `{!memcache.Handler W H}
    (h : H) fuel c w c' w' :
  run fuel h c w = Some (Ok (c', w')) → closed c' = true.
Proof.
  revert c w. induction fuel as [|fuel IH]; intros c w; [done|].
  cbn [run]. destruct (readRequestLine c) as [[[[req|] [e|]] c1]|p]; try done.
  - by intros [= <- <-].
  - destruct (decide (Command req = [])); [apply IH|].
    destruct (ServeMemcache h req c1 w) as [[[[e|] c2] w2]|p]; try done.
    + by intros [= <- <-].
    + apply IH.
  - by intros [= <- <-].
Qed.

Lemma extends_refl c : wbuf c = [] → extends c c.
Proof. by intros Hw. Qed.

Lemma extends_trans c1 c2 c3 : extends c1 c2 → extends c2 c3 → extends c1 c3.
Proof.
  intros (_ & Hp1 & Hc1) (Hw & Hp2 & Hc2). split; [done|]. split.
  - by etrans.
  - congruence.
Qed.

Lemma extends_emit c msg : extends c (emit c msg).
Proof. split; [done|]. split; [by eexists|done]. Qed.

Lemma extends_set_rd c c' r : extends c c' → extends c (set_rd c' r).
Proof. by intros (? & ? & ?). Qed.

Lemma readRequestLine_conn c r e c' :
  readRequestLine c = Ok (r, e, c') → c' = set_rd c (rd c').
Proof.
  unfold readRequestLine, ReadString, mbind, result_bind. intros Hline.
  repeat (first [case_decide | case_match]; simplify_eq/=); done.
Qed.

Lemma readRequestBody_conn c n body e c' :
  readRequestBody c n = Ok (body, e, c') → c' = set_rd c (rd c').
Proof.
  unfold readRequestBody, ReadFull, mbind, result_bind. intros Hbody.
  repeat (first [case_decide | case_match]; simplify_eq/=); done.
Qed.

Section Flushing.
Context {St : Type} `{!simplemmc.Handler St}.
Variable V : gostring.

Lemma get_loop_extends keys c w :
  wbuf c = [] → extends c (get_loop keys c w).1.2.
Proof.
  revert c w. induction keys as [|key keys IH]; intros c w Hw; [done|].
  cbn [get_loop]. destruct (h_Get key w) as [[data err] w1].
  destruct (decide (err = Some ErrNotFound)); [by apply IH|].
  destruct err as [e|].
  - rewrite ServerError_emit. apply extends_emit.
  - rewrite Value_emit. eapply extends_trans; [apply extends_emit|].
    by apply IH.
Qed.

Lemma fullHandler_extends req c w e c' w' :
  wbuf c = [] →
  fullHandler V req c w = Ok (e, c', w') → extends c c'.
Proof.
  intros Hw. unfold fullHandler. intros Hserve.
  repeat case_decide; simplify_eq/=;
    try (by apply extends_refl); try apply extends_emit.
  - unfold serve_get, mbind, result_bind in Hserve.
    repeat (first [case_decide | case_match]; simplify_eq/=);
      try apply extends_emit.
    all: match goal with
         | Hl : get_loop ?k ?c ?w = _ |- _ =>
             pose proof (get_loop_extends k c w Hw) as Hext; rewrite Hl in Hext;
             cbn in Hext
         end.
    all: first [ done | eapply extends_trans; [exact Hext|apply extends_emit] ].
  - unfold serve_set, req_ReadBody, ReadBody, h_Set, mbind, result_bind in Hserve.
    repeat (first [case_decide | case_match]; simplify_eq/=);
      try (by apply extends_refl); try apply extends_emit.
    all: match goal with
         | Hb : readRequestBody _ _ = _ |- _ =>
             apply readRequestBody_conn in Hb; rewrite Hb
         end.
    all: try (by apply extends_set_rd, extends_refl).
    all: eapply extends_trans;
           [apply extends_set_rd, extends_refl; exact Hw|apply extends_emit].
  - unfold serve_del, h_Del, mbind, result_bind in Hserve.
    repeat (first [case_decide | case_match]; simplify_eq/=);
      try (by apply extends_refl); try apply extends_emit.
Qed.

(** X15.  Responses are flushed and append-only.  On a connection with
    nothing buffered, whatever the request, the dispatcher leaves nothing
    buffered, keeps the bytes already sent as a prefix of the bytes sent,
    and does not close the connection; and when the loop ends, nothing is
    buffered and the bytes sent at the start are a prefix of the bytes
    sent. *)
Theorem responses_are_flushed_and_appended c w :
  wbuf c = [] →
  (∀ req e c' w', fullHandler V req c w = Ok (e, c', w') → extends c c') ∧
  (∀ fuel c' w',
     run fuel (fullHandler V) c w = Some (Ok (c', w')) →
     wbuf c' = [] ∧ wire c `prefix_of` wire c').
Proof.
  intros Hw. split; [intros req e c' w'; by apply fullHandler_extends|].
  intros fuel. revert c w Hw.
  induction fuel as [|fuel IH]; intros c w Hw c' w'; [done|].
  cbn [run].
  destruct (readRequestLine c) as [[[[req|] [e|]] c1]|p] eqn:Hline; try done.
  - apply readRequestLine_conn in Hline. intros [= <- <-]. by rewrite Hline.
  - apply readRequestLine_conn in Hline.
    assert (Hw1 : wbuf c1 = []) by (by rewrite Hline).
    assert (Hwire : wire c1 = wire c) by (by rewrite Hline).
    destruct (decide (Command req = [])).
    { intros Hrun. apply IH in Hrun; [|done]. by rewrite <- Hwire. }
    unfold ServeMemcache, HandlerFunc_Handler.
    destruct (fullHandler V req c1 w) as [[[[e|] c2] w2]|p] eqn:Hserve; try done.
    + apply fullHandler_extends in Hserve as (Hw2 & Hp & _); [|done].
      intros [= <- <-]. cbn [Close wbuf wire]. by rewrite <- Hwire.
    + apply fullHandler_extends in Hserve as (Hw2 & Hp & _); [|done].
      intros Hrun. apply IH in Hrun as [? ?]; [|done]. split; [done|].
      rewrite <- Hwire. by etrans.
  - apply readRequestLine_conn in Hline. intros [= <- <-]. by rewrite Hline.
Qed.
End Flushing.

(** ** Where the dispatcher can panic *)

Lemma parse_uint_loop_range n s v err :
  0 ≤ n → parse_uint_loop n s = (v, err) →
  match err with
  | None => 0 ≤ v
  | Some ErrRange => v = maxUint64
  | Some ErrSyntax => v = 0
  end.
Proof.
  revert n. induction s as [|ch s IH]; intros n Hn; cbn [parse_uint_loop].
  - by intros [= <- <-].
  - destruct (is_digit ch) eqn:Hdig; cbn [negb]; [|by intros [= <- <-]].
    destruct (Z.leb _ n); [by intros [= <- <-]|].
    destruct (Z.ltb _ _); [by intros [= <- <-]|].
    apply IH. unfold is_digit in Hdig. apply andb_true_iff in Hdig as [Hlo _].
    apply Z.leb_le in Hlo. unfold digit_val. lia.
Qed.

(** What Atoi returns without error is an [int]. *)
Lemma Atoi_range s n : Atoi s = (n, None) → MinInt ≤ n ≤ MaxInt.
Proof.
  unfold Atoi. destruct (ParseInt s) as [v [[]|]] eqn:Hparse; try done.
  intros [= ->]. unfold ParseInt in Hparse. destruct s as [|ch s]; [done|].
  cbv zeta in Hparse.
  match type of Hparse with context [ParseUint ?x] => set (s1 := x) in Hparse end.
  assert (Huint : ∀ un err, ParseUint s1 = (un, err) →
            match err with
            | None => 0 ≤ un
            | Some ErrRange => un = maxUint64
            | Some ErrSyntax => un = 0
            end).
  { intros un err. unfold ParseUint. destruct s1; [by intros [= <- <-]|].
    by apply parse_uint_loop_range. }
  destruct (ParseUint s1) as [un err] eqn:Hun. specialize (Huint un err eq_refl).
  unfold MinInt, MaxInt, maxUint64, intSize in *.
  change (2 ^ (64 - 1)) with 9223372036854775808 in *.
  change (2 ^ 64 - 1) with 18446744073709551615 in *.
  destruct err as [[]|]; [done| |].
  all: destruct (bool_decide (ch = "-"%char)); cbn [negb andb] in Hparse.
  all: repeat match type of Hparse with
         | context [?a <=? ?b] => destruct (Z.leb_spec a b)
         | context [?a <? ?b] => destruct (Z.ltb_spec a b)
         end; simplify_eq; lia.
Qed.

(** The two largest lengths overflow [length+len(eol)]. *)
Lemma readRequestBody_overflow c n :
  MaxInt - 2 < n ≤ MaxInt →
  readRequestBody c n = Panic makeslice_len_out_of_range.
Proof.
  intros Hn. unfold readRequestBody, int_add, make. change (len eol) with 2.
  rewrite decide_False; [done|].
  unfold int_wrap, MaxInt, intSize in *.
  change (2 ^ (64 - 1)) with 9223372036854775808 in *.
  change (2 ^ 64) with 18446744073709551616.
  replace (n + 2 + 9223372036854775808)
    with (n + 2 - 9223372036854775808 + 1 * 18446744073709551616) by lia.
  rewrite Z.mod_add by done. rewrite Z.mod_small; lia.
Qed.

Section Panics.
Context {St : Type} `{!simplemmc.Handler St}.
Variable V : gostring.

Lemma serve_get_no_panic req c w p : serve_get req c w ≠ Panic p.
Proof.
  unfold serve_get. case_decide as Hlen; [by rewrite ClientError_emit|].
  assert (Hslice : ∃ args, (if decide (Command req = str "get")
                            then slice_to (Args req) 1 else Ok (Args req))
                           = Ok args).
  { case_decide; [|by eexists]. unfold slice_to.
    pose proof (len_nonneg (Args req)). rewrite decide_True by lia. by eexists. }
  destruct Hslice as [args ->]. cbn [mbind result_bind].
  destruct (get_loop args c w) as [[[] c1] w1]; [|done].
  by rewrite Status_emit.
Qed.

Lemma serve_del_no_panic req c w p : serve_del req c w ≠ Panic p.
Proof.
  unfold serve_del. case_decide as Hlen; [by rewrite ClientError_emit|].
  rewrite del_noreply_eval by lia. cbn [mbind result_bind].
  destruct (lookup_lt_is_Some_2 (Args req) 0) as [key Hkey];
    [unfold len in Hlen; lia|].
  rewrite (index_lookup _ 0 key) by (done || lia). cbn [mbind result_bind].
  destruct (h_Del key w) as [err w1].
  destruct (del_noreply (Args req)); cbn [negb]; [done|].
  destruct err as [e|]; [|by rewrite Status_emit].
  case_decide; by rewrite ?Status_emit, ?ServerError_emit.
Qed.

Lemma serve_set_panic req c w p :
  serve_set req c w = Panic p →
  ∃ a3 n, Args req !! 3%nat = Some a3 ∧ Atoi a3 = (n, None) ∧ 0 ≤ n ∧
          ReadBody c n = Panic p.
Proof.
  unfold serve_set. case_decide as Hlen; [by rewrite ClientError_emit|].
  rewrite noreply_eval by lia. cbn [mbind result_bind].
  destruct (lookup_lt_is_Some_2 (Args req) 3) as [a3 Ha3];
    [unfold len in Hlen; lia|].
  destruct (lookup_lt_is_Some_2 (Args req) 0) as [key Hkey];
    [unfold len in Hlen; lia|].
  rewrite (index_lookup _ 3 a3) by (done || lia). cbn [mbind result_bind].
  destruct (Atoi a3) as [n err] eqn:Hatoi.
  case_decide as Hbad.
  { destruct (noreply_in_effect _); cbn [negb]; [done|by rewrite ClientError_emit]. }
  assert (err = None) as -> by (destruct err; [exfalso; apply Hbad; by left|done]).
  assert (Hn : 0 ≤ n) by (destruct (decide (0 ≤ n)); [done|exfalso; apply Hbad; right; lia]).
  unfold req_ReadBody.
  destruct (ReadBody c n) as [[[body e] c1]|p0] eqn:Hbody;
    cbn [mbind result_bind].
  - rewrite (index_lookup _ 0 key) by (done || lia). cbn [mbind result_bind].
    destruct e as [e|].
    { destruct (noreply_in_effect _); cbn [negb]; [done|by rewrite ServerError_emit]. }
    destruct (h_Set _ _ _ _) as [err w1].
    destruct (noreply_in_effect _); cbn [negb]; [done|].
    destruct err as [e|]; [|by rewrite Status_emit].
    case_decide; by rewrite ?Status_emit, ?ServerError_emit.
  - intros [= ->]. by exists a3, n.
Qed.

Lemma serve_set_overflow req c w a3 n :
  Args req !! 3%nat = Some a3 → Atoi a3 = (n, None) → MaxInt - 2 < n →
  serve_set req c w = Panic makeslice_len_out_of_range.
Proof.
  intros Ha3 Hatoi Hn. pose proof (Atoi_range a3 n Hatoi) as [_ Hmax].
  assert (Hlen : 4 ≤ len (Args req)).
  { apply lookup_lt_Some in Ha3. unfold len. lia. }
  unfold serve_set. rewrite decide_False by lia.
  rewrite noreply_eval by done. cbn [mbind result_bind].
  rewrite (index_lookup _ 3 a3) by (done || lia). cbn [mbind result_bind].
  rewrite Hatoi.
  rewrite decide_False
    by (intros [?|?]; [done|unfold MaxInt, intSize in *; lia]).
  unfold req_ReadBody, ReadBody. by rewrite readRequestBody_overflow by lia.
Qed.

(** X16.  The dispatcher indexes and slices its arguments safely:
    whatever the request and the state, if the handler panics, then the
    command is set, add or replace, its fourth argument parsed to a
    length that is not negative, and the panic is the one that ReadBody
    raised for that length.  No other command, and no malformed argument
    list, makes the dispatcher panic.  Conversely, every storage command
    whose length parses to more than MaxInt - 2 does panic, in [make]. *)
Theorem dispatcher_panics_only_in_ReadBody req c w :
  (∀ p, fullHandler V req c w = Panic p →
        ∃ mode a3 n,
          (Command req, mode) ∈ storage_commands ∧
          Args req !! 3%nat = Some a3 ∧ Atoi a3 = (n, None) ∧ 0 ≤ n ∧
          ReadBody c n = Panic p) ∧
  (∀ mode a3 n,
     (Command req, mode) ∈ storage_commands →
     Args req !! 3%nat = Some a3 → Atoi a3 = (n, None) → MaxInt - 2 < n →
     fullHandler V req c w = Panic makeslice_len_out_of_range).
Proof.
  split.
  2:{ intros mode a3 n Hcmd Ha3 Hatoi Hn.
      destruct req as [cmd args]. cbn [Command Args] in *.
      rewrite (fullHandler_storage V cmd mode args c w Hcmd).
      by eapply serve_set_overflow. }
  intros p. unfold fullHandler. cbn zeta. intros Hp.
  case_decide as Hget; [by apply serve_get_no_panic in Hp|].
  case_decide as Hset.
  { apply serve_set_panic in Hp as (a3 & n & Ha3 & Hatoi & Hn & Hbody).
    assert (∃ mode, (Command req, mode) ∈ storage_commands) as [mode Hmode].
    { unfold storage_commands.
      destruct Hset as [-> | [-> | ->]]; eexists; rewrite !elem_of_cons; eauto. }
    by exists mode, a3, n. }
  case_decide; [by apply serve_del_no_panic in Hp|].
  case_decide; [by rewrite Status_emit in Hp|].
  case_decide; [done|].
  unfold UnknownCommandError in Hp. by rewrite Status_emit in Hp.
Qed.
End Panics.

(** ** Ending, reading back, and leaving the input alone *)

Section MoreLoop.
Context {St : Type} `{!simplemmc.Handler St}.
Variable V : gostring.

(** X17.  On a finite input the loop under the dispatcher always ends:
    every iteration consumes at least one byte, so one iteration per
    input byte and one more are enough, whatever the requests and the
    store. *)
Theorem loop_ends_on_finite_input (fuel : nat) c w :
  (length (rd c) < fuel)%nat →
  ∃ r, run fuel (fullHandler V) c w = Some r.
Proof. apply run_fullHandler_ends. Qed.

Lemma get_loop_calls keys c w :
  ∃ ks, calls (get_loop keys c w).2 = calls w ++ (CallGet <$> ks).
Proof.
  revert c w. induction keys as [|key keys IH]; intros c w.
  - exists []. cbn. by rewrite app_nil_r.
  - cbn [get_loop]. unfold h_Get.
    destruct (Handler_Get key (store w)) as [[data err] s1].
    set (w1 := Env s1 (calls w ++ [CallGet key])).
    assert (Hstep : ∀ c1, ∃ ks, calls (get_loop keys c1 w1).2
                                = calls w ++ (CallGet <$> ks)).
    { intros c1. destruct (IH c1 w1) as [ks Hks]. exists (key :: ks).
      rewrite Hks. subst w1. cbn [calls fmap list_fmap].
      by rewrite <- app_assoc. }
    destruct (decide (err = Some ErrNotFound)); [apply Hstep|].
    destruct err as [e|].
    + rewrite ServerError_emit. by exists [key].
    + rewrite Value_emit. apply Hstep.
Qed.

(** X18.  Only the storage commands read past their request line or
    write to the store: for every other command the dispatcher leaves
    the unread input as it is, asks for no body and never calls
    Store.Set. *)
Theorem only_storage_commands_read_a_body req c w e c' w' :
  (∀ mode, (Command req, mode) ∉ storage_commands) →
  fullHandler V req c w = Ok (e, c', w') →
  rd c' = rd c ∧
  (∀ n, CallReadBody n ∈ calls w' → CallReadBody n ∈ calls w) ∧
  (∀ key body mode, CallSet key body mode ∈ calls w' →
                    CallSet key body mode ∈ calls w).
Proof.
  intros Hcmd. unfold fullHandler. cbn zeta. intros Hserve.
  assert (Hfmap : ∀ (x : call) ks, (∀ k, x ≠ CallGet k) →
            x ∈ calls w ++ (CallGet <$> ks) → x ∈ calls w).
  { intros x ks Hx. rewrite elem_of_app, list_elem_of_fmap.
    intros [?|(k & -> & _)]; [done|by destruct (Hx k)]. }
  case_decide as Hget.
  { unfold serve_get, mbind, result_bind in Hserve.
    repeat (first [case_decide | case_match]; simplify_eq/=); try done.
    all: match goal with
         | Hl : get_loop ?k ?c ?w = _ |- _ =>
             pose proof (get_loop_rd k c w) as Hrd;
             destruct (get_loop_calls k c w) as [ks Hks];
             rewrite Hl in Hrd, Hks; cbn in Hrd, Hks; rewrite Hks
         end.
    all: split; [done|]; split; intros; by eapply Hfmap. }
  case_decide as Hset.
  { exfalso. unfold storage_commands in Hcmd.
    destruct Hset as [Hc | [Hc | Hc]].
    - apply (Hcmd Set_). rewrite Hc, !elem_of_cons. auto.
    - apply (Hcmd Add). rewrite Hc, !elem_of_cons. auto.
    - apply (Hcmd Replace). rewrite Hc, !elem_of_cons. auto. }
  case_decide.
  { unfold serve_del, h_Del, mbind, result_bind in Hserve.
    repeat (first [case_decide | case_match]; simplify_eq/=); try done.
    all: split; [done|]; split; intros *; rewrite elem_of_app, list_elem_of_singleton;
      by intros [?|?]. }
  repeat case_decide; by simplify_eq/=.
Qed.
End MoreLoop.

Lemma len_cons {A} (x : A) (l : list A) : len (x :: l) = 1 + len l.
Proof. unfold len. cbn [length]. lia. Qed.

(** X19.  A value block is framed like a storage request: the bytes
    that Value writes for a plain key are read back by the package's own
    decoder, the line as the command VALUE with the key, the flags 0, the
    decimal length and the cas 0, and the body, by the length that Atoi
    reads from the third argument, as exactly the bytes that were sent. *)
Theorem value_block_reads_back key body rest :
  plain key → go_len_ok (value_block key body) →
  let sent := wire (Value (newConn []) key body).2 in
  ∃ c1,
    readRequestLine (newConn (sent ++ rest)) =
      Ok (Some {| Command := str "VALUE";
                  Args := [key; str "0"; fmt_d (len body); str "0"] |},
          None, c1) ∧
    Atoi (fmt_d (len body)) = (len body, None) ∧
    ReadBody c1 (len body) = Ok (body, None, newConn rest).
Proof.
  intros [Hsp Hlf] Hlen sent. subst sent. rewrite Value_emit.
  cbn [snd emit wire newConn wbuf app].
  pose proof (len_nonneg body) as Hbody. pose proof (len_nonneg key) as Hkey.
  pose proof (len_nonneg (fmt_d (len body))) as Hdigits.
  unfold go_len_ok, value_block in Hlen. rewrite !len_app in Hlen.
  change (len (str "VALUE ")) with 6 in Hlen.
  change (len (str " 0 ")) with 3 in Hlen.
  change (len (str " 0")) with 2 in Hlen. change (len eol) with 2 in Hlen.
  set (toks := [str "VALUE"; key; str "0"; fmt_d (len body); str "0"]).
  assert (Hhead : value_block key body ++ rest =
                  Join toks " "%char ++ eol ++ (body ++ eol ++ rest)).
  { unfold value_block. subst toks. cbn [Join].
    repeat (rewrite <- app_assoc; cbn [app]). reflexivity. }
  exists (set_rd (newConn (value_block key body ++ rest)) (body ++ eol ++ rest)).
  split; [|split].
  - rewrite (readRequestLine_ok _ (Join toks " "%char) (body ++ eol ++ rest)).
    + rewrite Split_Join; [done|done|]. subst toks.
      repeat first
        [ apply Forall_nil_2
        | apply Forall_cons_2;
          [first [assumption | by apply fmt_d_no_byte | by_eval]|] ].
    + apply not_elem_of_Join; [discriminate|]. subst toks.
      repeat first
        [ apply Forall_nil_2
        | apply Forall_cons_2;
          [first [assumption | by apply fmt_d_no_byte | by_eval]|] ].
    + unfold go_len_ok. subst toks. cbn [Join].
      repeat first [rewrite len_app | rewrite len_cons].
      change (len (str "VALUE")) with 5. change (len (str "0")) with 1.
      change (len eol) with 2. lia.
    + done.
  - apply Atoi_fmt_d. unfold MaxInt, intSize in *. lia.
  - unfold ReadBody.
    rewrite (readRequestBody_ok _ body rest); [done| |done].
    unfold go_len_ok. rewrite len_app. change (len eol) with 2. lia.
Qed.


(** ** The further statements at concrete requests *)

Lemma request_line_decodes_to_its_tokens_witness :
  readRequestLine (newConn (str "set k 0 0 3" ++ eol ++ str "abc" ++ eol)) =
  Ok (Some {| Command := str "set";
              Args := [str "k"; str "0"; str "0"; str "3"] |},
      None,
      set_rd (newConn (str "set k 0 0 3" ++ eol ++ str "abc" ++ eol))
        (str "abc" ++ eol)).
Proof.
  apply request_line_decodes_to_its_tokens.
  - repeat constructor; by_eval.
  - unfold go_len_ok. by_eval.
  - reflexivity.
Defined.

Lemma decoded_request_is_the_line_witness :
  rd (newConn (str "get k" ++ eol ++ str "quit" ++ eol)) =
    Join [str "get"; str "k"] " "%char ++ eol ++ str "quit" ++ eol ∧
  Forall plain [str "get"; str "k"].
Proof.
  pose proof (decoded_request_is_the_line
                (newConn (str "get k" ++ eol ++ str "quit" ++ eol))
                {| Command := str "get"; Args := [str "k"] |}
                (newConn (str "quit" ++ eol))) as Hdec.
  destruct Hdec as (Hrd & Hplain & _); [vm_compute; reflexivity|].
  split; [exact Hrd|exact Hplain].
Defined.

Lemma incomplete_line_ends_the_loop_witness :
  run 1 (fullHandler (str "1.0")) (newConn (str "get k")) (Env sample_map []) =
  Some (Ok (Close (newConn []), Env sample_map [])).
Proof.
  apply (incomplete_line_ends_the_loop (fullHandler (str "1.0")) 0%nat
           (newConn (str "get k")) (Env sample_map [])).
  by_eval.
Defined.

Lemma bare_LF_line_ends_the_loop_witness :
  run 1 (fullHandler (str "1.0")) (newConn (str "get k" ++ [LF] ++ str "quit" ++ eol))
    (Env sample_map []) =
  Some (Ok (Close (newConn (str "quit" ++ eol)), Env sample_map [])).
Proof.
  apply (bare_LF_line_ends_the_loop (fullHandler (str "1.0")) 0%nat
           (newConn (str "get k" ++ [LF] ++ str "quit" ++ eol))
           (Env sample_map []) (str "get ") "k"%char (str "quit" ++ eol)).
  - by_eval.
  - discriminate.
  - discriminate.
  - unfold go_len_ok. by_eval.
  - reflexivity.
Defined.

Lemma body_is_read_as_declared_witness :
  0 ≤ 3 ∧ len (str "abc") = 3 ∧
  rd (newConn (str "abc" ++ eol ++ str "get k" ++ eol)) =
    str "abc" ++ eol ++ str "get k" ++ eol.
Proof.
  pose proof (body_is_read_as_declared
                (newConn (str "abc" ++ eol ++ str "get k" ++ eol)) 3 (str "abc")
                (newConn (str "get k" ++ eol))) as Hbody.
  destruct Hbody as (Hn & Hlen & Hrd & _); [vm_compute; reflexivity|].
  split; [exact Hn|]. split; [exact Hlen|exact Hrd].
Defined.

Lemma short_body_is_an_io_error_witness :
  readRequestBody (newConn (str "ab")) 3 =
    Ok ([], Some io_ErrUnexpectedEOF, newConn []) ∧
  ([] : bytes, Some io_ErrUnexpectedEOF, newConn []) =
  ([], Some (if decide (rd (newConn (str "ab")) = [])
             then io_EOF else io_ErrUnexpectedEOF),
   set_rd (newConn (str "ab")) []).
Proof.
  assert (Hread : readRequestBody (newConn (str "ab")) 3 =
                  Ok ([], Some io_ErrUnexpectedEOF, newConn []))
    by (vm_compute; reflexivity).
  split; [exact Hread|].
  apply (short_body_is_an_io_error (newConn (str "ab")) 3).
  - by_eval.
  - by_eval.
  - exact Hread.
Defined.

Lemma unterminated_body_is_a_framing_error_witness :
  readRequestBody (newConn (str "abcXY" ++ str "get k" ++ eol)) 3 =
  Ok ([], Some errInvalidEOL, newConn (str "get k" ++ eol)).
Proof.
  apply (unterminated_body_is_a_framing_error
           (newConn (str "abcXY" ++ str "get k" ++ eol)) (str "abcXY")
           (str "get k" ++ eol)).
  - by_eval.
  - by_eval.
  - reflexivity.
Defined.

Lemma negative_length_panics_witness :
  readRequestBody (newConn (str "x")) (-1) = Panic slice_bounds_out_of_range ∧
  readRequestBody (newConn (str "x")) (-3) = Panic makeslice_len_out_of_range.
Proof.
  split.
  - apply (negative_length_panics (newConn (str "x")) (-1)); [by_eval|discriminate].
  - apply (negative_length_panics (newConn (str "x")) (-3)); [by_eval|discriminate].
Defined.

Lemma storage_body_failure_skips_the_store_witness :
  fullHandler (str "1.0")
    {| Command := str "set"; Args := [str "k"; str "0"; str "0"; str "3"] |}
    (newConn (str "abcXY")) (Env sample_map []) =
  Ok (None,
      emit (newConn [])
        (str "SERVER_ERROR " ++ Error errInvalidEOL ++ eol),
      Env sample_map [CallReadBody 3]).
Proof.
  apply (storage_body_failure_skips_the_store (str "1.0") (str "set") Set_
           [str "k"; str "0"; str "0"; str "3"] (str "3") 3
           (newConn (str "abcXY")) [] errInvalidEOL (newConn [])
           (Env sample_map [])).
  - by_eval.
  - reflexivity.
  - vm_compute. reflexivity.
  - lia.
  - vm_compute. reflexivity.
Defined.

Lemma del_calls_the_store_once_witness :
  fullHandler (str "1.0") {| Command := str "del"; Args := [str "k"] |}
    (newConn []) (Env sample_map []) =
  Ok (None, emit (newConn []) (str "DELETED" ++ eol),
      Env (delete (str "k") sample_map) [CallDel (str "k")]).
Proof.
  apply (del_calls_the_store_once (str "1.0") (str "k") [] (newConn [])
           (Env sample_map []) None (delete (str "k") sample_map)).
  vm_compute. reflexivity.
Defined.

Lemma unknown_command_is_an_error_witness :
  fullHandler (str "1.0") {| Command := str "bogus"; Args := [str "k"] |}
    (newConn []) (Env sample_map []) =
  Ok (None, emit (newConn []) (str "ERROR" ++ eol), Env sample_map []).
Proof.
  apply (unknown_command_is_an_error (str "1.0") (str "bogus") [str "k"]
           (newConn []) (Env sample_map [])).
  by_eval.
Defined.

Lemma quit_closes_the_connection_witness :
  run 1 (fullHandler (str "1.0")) (newConn (str "quit" ++ eol ++ str "get k" ++ eol))
    (Env sample_map []) =
  Some (Ok (Close (newConn (str "get k" ++ eol)), Env sample_map [])).
Proof.
  apply (quit_closes_the_connection (str "1.0") [] 0%nat
           (newConn (str "quit" ++ eol ++ str "get k" ++ eol))
           (newConn (str "get k" ++ eol)) (Env sample_map [])).
  vm_compute. reflexivity.
Defined.

Lemma loop_leaves_the_connection_closed_witness :
  closed (Close (emit (newConn []) (str "END" ++ eol))) = true.
Proof.
  apply (loop_leaves_the_connection_closed (fullHandler (str "1.0")) 2%nat
           (newConn (str "get x" ++ eol)) (Env sample_map [])
           (Close (emit (newConn []) (str "END" ++ eol))) (Env sample_map [CallGet (str "x")])).
  vm_compute. reflexivity.
Defined.

Lemma responses_are_flushed_and_appended_witness :
  extends (newConn []) (emit (newConn []) (str "END" ++ eol)).
Proof.
  apply (proj1 (responses_are_flushed_and_appended (str "1.0") (newConn [])
                  (Env sample_map []) eq_refl)
           {| Command := str "get"; Args := [str "x"] |} None
           (emit (newConn []) (str "END" ++ eol))
           (Env sample_map [CallGet (str "x")])).
  vm_compute. reflexivity.
Defined.

Lemma dispatcher_panics_only_in_ReadBody_witness :
  fullHandler (str "1.0")
    {| Command := str "add";
       Args := [str "k"; str "0"; str "0"; str "9223372036854775806"] |}
    (newConn []) (Env sample_map []) = Panic makeslice_len_out_of_range ∧
  ∃ mode a3 n,
    (str "add", mode) ∈ storage_commands ∧
    [str "k"; str "0"; str "0"; str "9223372036854775806"] !! 3%nat = Some a3 ∧
    Atoi a3 = (n, None) ∧ 0 ≤ n ∧
    ReadBody (newConn []) n = Panic makeslice_len_out_of_range.
Proof.
  assert (Hp : fullHandler (str "1.0")
                 {| Command := str "add";
                    Args := [str "k"; str "0"; str "0";
                             str "9223372036854775806"] |}
                 (newConn []) (Env sample_map [])
               = Panic makeslice_len_out_of_range)
    by (vm_compute; reflexivity).
  split; [exact Hp|].
  exact (proj1 (dispatcher_panics_only_in_ReadBody (str "1.0") _ _ _) _ Hp).
Defined.

Lemma loop_ends_on_finite_input_witness :
  ∃ r, run 8 (fullHandler (str "1.0")) (newConn (str "get k" ++ eol))
         (Env sample_map []) = Some r.
Proof.
  apply (loop_ends_on_finite_input (str "1.0") 8%nat
           (newConn (str "get k" ++ eol)) (Env sample_map [])).
  by_eval.
Defined.

Lemma only_storage_commands_read_a_body_witness :
  rd (emit (newConn (str "abc" ++ eol)) (value_block (str "k") (str "abc")
                                           ++ str "END" ++ eol))
  = rd (newConn (str "abc" ++ eol)).
Proof.
  apply (only_storage_commands_read_a_body (str "1.0")
           {| Command := str "get"; Args := [str "k"] |}
           (newConn (str "abc" ++ eol)) (Env sample_map []) None
           (emit (newConn (str "abc" ++ eol))
              (value_block (str "k") (str "abc") ++ str "END" ++ eol))
           (Env sample_map [CallGet (str "k")])).
  - intros mode. destruct mode; by_eval.
  - vm_compute. reflexivity.
Defined.

Lemma value_block_reads_back_witness :
  ∃ c1,
    readRequestLine
      (newConn (wire (Value (newConn []) (str "k") (str "abc")).2 ++ str "END" ++ eol)) =
      Ok (Some {| Command := str "VALUE";
                  Args := [str "k"; str "0"; fmt_d (len (str "abc")); str "0"] |},
          None, c1) ∧
    Atoi (fmt_d (len (str "abc"))) = (len (str "abc"), None) ∧
    ReadBody c1 (len (str "abc")) =
      Ok (str "abc", None, newConn (str "END" ++ eol)).
Proof.
  apply (value_block_reads_back (str "k") (str "abc") (str "END" ++ eol)).
  - split; by_eval.
  - unfold go_len_ok. by_eval.
Defined.
